(** * naswar-dealer: the background sync queue and the Firestore usage tracker

    A shallow embedding of [src/firestore.js]: the [BackgroundSyncQueue]
    object, the two public sync entry points ([queueBackgroundSync],
    [immediateSync]) and the usage tracker ([trackFirestoreRead],
    [trackFirestoreWrite], [checkAndAutoResetFirestoreStats],
    [updateFirestoreDisplay], [updateFirestoreChart], [loadFirestoreStats],
    [resetFirestoreStats]); of the initialization of [src/bridge.js]; and of
    the three handlers of the service worker.

    JavaScript runs these on one thread.  An [async] function runs
    synchronously up to its next [await]; what is left of it is a suspended
    continuation.  The embedding keeps the suspended drain loops in the state
    ([drains]) and lets the environment resume them one at a time. *)

From Stdlib Require Import List ZArith String Bool Lia QArith DecimalString.
From Stdlib Require Import Permutation.
Import ListNotations.
Local Open Scope string_scope.
Local Open Scope list_scope.
Local Open Scope Z_scope.

(** ** Data model *)

(** The document object handed to the sync API.  The code reads [data.id] and
    otherwise only spreads the object into the write payload. *)
Record Data := mkData {
  data_id : option string;
  fields : list (string * string)
}.

(** An element of [BackgroundSyncQueue.queue] (firestore.js:27-34). *)
Record QueueItem := mkItem {
  operation : string;
  collection : string;
  data : Data;
  id : string;
  timestamp : Z;
  attempts : Z
}.

(** A write handed to Firestore.  [OpSet] is
    [set(docRef, {...data, updatedAt, syncedAt}, {merge: true})]: the two
    server timestamps and the merge flag are the same on every call, so the
    constructor keeps the document path and [data].  [OpDelete] is
    [delete(docRef)].  The path is users/<uid>/<collection>/<doc>. *)
Inductive RemoteOp :=
| OpSet (uid coll doc : string) (payload : Data)
| OpDelete (uid coll doc : string).

(** Lines written to the console. *)
Inductive LogEntry :=
| ErrProcessing (op : string)      (* '[BackgroundSync] Error processing <op>:' *)
| ErrCommit                        (* '[BackgroundSync] Batch commit failed:' *)
| InfoSynced (n : nat)             (* '[BackgroundSync] Synced <n> operations' *)
| InfoSkipping                     (* '[BackgroundSync] Skipping - user not logged in ...' *)
| InfoQueued (op coll : string)    (* '[BackgroundSync] Queued <op> for <coll>' *)
| InfoImmediate (op coll : string) (* '[ImmediateSync] <op> completed for <coll>' *)
| ErrImmediate.                    (* '[ImmediateSync] Error:' *)

(** ** The usage tracker (firestore.js:262-484) *)

(** One element of [firestoreStats.history].  The code never builds one: the
    field is only ever assigned the empty array. *)
Record Sample := mkSample { t : Z; sample_reads : Z; sample_writes : Z }.

Record FirestoreStats := mkStats {
  reads : Z;
  writes : Z;
  history : list Sample;
  lastReset : Z
}.

(** [firestoreUsageChart.data]: the labels and the two datasets.  A label is
    the time of day formatted from the current instant; the embedding keeps
    the instant. *)
Record Chart := mkChart {
  labels : list Z;
  reads_data : list Z;
  writes_data : list Z
}.

(** The tracker's three module-level variables: [firestoreStats],
    [firestoreUsageChart] (null until the data menu is opened) and the
    'firestoreStats' entry of localStorage (the JSON of the stats object). *)
Record Usage := mkUsage {
  firestoreStats : FirestoreStats;
  firestoreUsageChart : option Chart;
  localStorage : option FirestoreStats
}.

Definition emptyChart : Chart := mkChart [] [] [].

(** [saveFirestoreStats] (firestore.js:297-303): [localStorage.setItem] of
    the whole stats object, taken to succeed; when it throws, the code logs
    the error and goes on with the object in memory. *)
Definition saveFirestoreStats (u : Usage) : Usage :=
  mkUsage (firestoreStats u) (firestoreUsageChart u) (Some (firestoreStats u)).

(** JavaScript [shift()]. *)
Definition shift {A} (l : list A) : list A := tl l.

(** [updateFirestoreChart] (firestore.js:450-469). *)
Definition updateFirestoreChart (now : Z) (u : Usage) : Usage :=
  match firestoreUsageChart u with
  | None => u
  | Some c =>
      let ls := labels c ++ [now] in
      let rs := reads_data c ++ [reads (firestoreStats u)] in
      let ws := writes_data c ++ [writes (firestoreStats u)] in
      let c' := if (10 <? List.length ls)%nat
                then mkChart (shift ls) (shift rs) (shift ws)
                else mkChart ls rs ws in
      mkUsage (firestoreStats u) (Some c') (localStorage u)
  end.

(** [updateFirestoreDisplay] (firestore.js:436-447); the two DOM text nodes
    are rendering only.  JavaScript [%] is [Z.rem]. *)
Definition updateFirestoreDisplay (now : Z) (u : Usage) : Usage :=
  if Z.rem (reads (firestoreStats u) + writes (firestoreStats u)) 10 =? 0
  then updateFirestoreChart now u
  else u.

(** [(now - lastReset) / (1000 * 60 * 60)], as an exact rational.  JavaScript
    divides in double precision; the test [>= 24] comes out the same, since
    rounding is monotone, 24 is a double, and the quotient of a whole number
    of milliseconds below 24 hours stays further from 24 than one rounding. *)
Definition hoursSinceReset (now : Z) (s : FirestoreStats) : Q :=
  (inject_Z (now - lastReset s) / inject_Z (1000 * 60 * 60))%Q.

(** [checkAndAutoResetFirestoreStats] (firestore.js:315-336). *)
Definition checkAndAutoResetFirestoreStats (now : Z) (u : Usage) : Usage :=
  if Qle_bool (inject_Z 24) (hoursSinceReset now (firestoreStats u)) then
    let u1 := mkUsage (mkStats 0 0 [] now) (firestoreUsageChart u) (localStorage u) in
    let u2 := updateFirestoreDisplay now (saveFirestoreStats u1) in
    match firestoreUsageChart u2 with
    | Some _ => mkUsage (firestoreStats u2) (Some emptyChart) (localStorage u2)
    | None => u2
    end
  else u.

Definition add_reads (n : Z) (u : Usage) : Usage :=
  let s := firestoreStats u in
  mkUsage (mkStats (reads s + n) (writes s) (history s) (lastReset s))
          (firestoreUsageChart u) (localStorage u).

Definition add_writes (n : Z) (u : Usage) : Usage :=
  let s := firestoreStats u in
  mkUsage (mkStats (reads s) (writes s + n) (history s) (lastReset s))
          (firestoreUsageChart u) (localStorage u).

(** [trackFirestoreRead] (firestore.js:418-424). *)
Definition trackFirestoreRead (count : Z) (now : Z) (u : Usage) : Usage :=
  updateFirestoreDisplay now
    (saveFirestoreStats (add_reads count (checkAndAutoResetFirestoreStats now u))).

(** [trackFirestoreWrite] (firestore.js:427-433). *)
Definition trackFirestoreWrite (count : Z) (now : Z) (u : Usage) : Usage :=
  updateFirestoreDisplay now
    (saveFirestoreStats (add_writes count (checkAndAutoResetFirestoreStats now u))).

(** The module's initial tracker state, loaded at instant [now]
    (firestore.js:305-312). *)
Definition initialUsage (now : Z) : Usage :=
  mkUsage (mkStats 0 0 [] now) None None.

(** [initFirestoreUsageChart]: the chart starts with no points. *)
Definition initFirestoreUsageChart (u : Usage) : Usage :=
  mkUsage (firestoreStats u) (Some emptyChart) (localStorage u).

(** ** The sync queue (firestore.js:12-167) *)

(** The [BackgroundSyncQueue] object's own properties. *)
Record BackgroundSyncQueue := mkQueue {
  queue : list QueueItem;
  processing : bool;
  batchSize : nat;
  throttleDelay : Z;
  retryAttempts : Z
}.

(** A drain loop ([processQueue]) suspended at one of its [await]s. *)
Inductive Pending :=
| AwaitCommit (batch : list QueueItem) (ops : list RemoteOp)
    (* inside [processBatch], at [await firestoreBatch.commit()]; [batch] is
       the local array (its items as the for loop left them), [ops] the
       writes added to the Firestore batch *)
| AwaitReturn
    (* at [await this.processBatch(batch)], [processBatch] having returned
       without committing *)
| AwaitSleep.
    (* at [await this.sleep(this.throttleDelay)] *)

(** Everything the code reads and writes: the queue object, the session
    globals [currentUser] (its [id]) and [firebaseDB] (is the handle set),
    the tracker, the console, and on the Firestore side the writes committed
    so far and the number of requests sent ([commit()], [set()], [delete()]). *)
Record World := mkWorld {
  bsq : BackgroundSyncQueue;
  currentUser : option string;
  firebaseDB : bool;
  usage : Usage;
  remote : list RemoteOp;
  requests : nat;
  console : list LogEntry;
  drains : list Pending
}.

(** What the environment answers during one synchronous run: [Date.now()],
    what [generateId()] returns, and whether the Firestore SDK, for the user
    id given, accepts to build the document reference and the write of an
    item (it throws otherwise). *)
Record Env := mkEnv {
  now : Z;
  generateId : string;
  builds : string -> QueueItem -> bool
}.

Definition set_bsq (b : BackgroundSyncQueue) (w : World) : World :=
  mkWorld b (currentUser w) (firebaseDB w) (usage w) (remote w) (requests w)
          (console w) (drains w).

Definition set_queue (q : list QueueItem) (w : World) : World :=
  set_bsq (mkQueue q (processing (bsq w)) (batchSize (bsq w))
                   (throttleDelay (bsq w)) (retryAttempts (bsq w))) w.

Definition set_processing (p : bool) (w : World) : World :=
  set_bsq (mkQueue (queue (bsq w)) p (batchSize (bsq w))
                   (throttleDelay (bsq w)) (retryAttempts (bsq w))) w.

Definition set_usage (u : Usage) (w : World) : World :=
  mkWorld (bsq w) (currentUser w) (firebaseDB w) u (remote w) (requests w)
          (console w) (drains w).

Definition set_remote (r : list RemoteOp) (w : World) : World :=
  mkWorld (bsq w) (currentUser w) (firebaseDB w) (usage w) r (requests w)
          (console w) (drains w).

Definition set_drains (d : list Pending) (w : World) : World :=
  mkWorld (bsq w) (currentUser w) (firebaseDB w) (usage w) (remote w)
          (requests w) (console w) d.

Definition set_session (user : option string) (db : bool) (w : World) : World :=
  mkWorld (bsq w) user db (usage w) (remote w) (requests w) (console w)
          (drains w).

(** One more request sent to Firestore. *)
Definition request (w : World) : World :=
  mkWorld (bsq w) (currentUser w) (firebaseDB w) (usage w) (remote w)
          (S (requests w)) (console w) (drains w).

(** [console.log] / [console.error]. *)
Definition log (l : LogEntry) (w : World) : World :=
  mkWorld (bsq w) (currentUser w) (firebaseDB w) (usage w) (remote w)
          (requests w) (console w ++ [l]) (drains w).

(** [this.queue.push(...items)]. *)
Definition push (items : list QueueItem) (w : World) : World :=
  set_queue (queue (bsq w) ++ items) w.

(** [{ ...item, attempts: item.attempts + 1 }], and also [item.attempts++]. *)
Definition bump (item : QueueItem) : QueueItem :=
  mkItem (operation item) (collection item) (data item) (id item)
         (timestamp item) (attempts item + 1).

(** JavaScript [x || y] on an optional string: null, undefined and the empty
    string are falsy. *)
Definition orElse (x : option string) (y : string) : string :=
  match x with
  | Some s => if String.eqb s "" then y else s
  | None => y
  end.

(** The [switch] of firestore.js:91-106: the write an item stands for; an
    operation other than the three adds nothing to the batch. *)
Definition write_of (uid : string) (item : QueueItem) : option RemoteOp :=
  if String.eqb (operation item) "create" || String.eqb (operation item) "update"
  then Some (OpSet uid (collection item) (id item) (data item))
  else if String.eqb (operation item) "delete"
  then Some (OpDelete uid (collection item) (id item))
  else None.

(** The [for] loop of [processBatch] (firestore.js:83-116).  It threads the
    Firestore batch under construction ([ops]; [operationCount] is its
    length) and the world (the queue and the console), and returns the local
    [batch] array as the loop leaves it: [item.attempts++] updates the object
    that [batch] still holds. *)
Fixpoint forEachItem (e : Env) (uid : string) (batch : list QueueItem)
    (ops : list RemoteOp) (w : World)
  : list QueueItem * list RemoteOp * World :=
  match batch with
  | [] => ([], ops, w)
  | item :: rest =>
      if builds e uid item then
        let ops' := match write_of uid item with
                    | Some op => ops ++ [op]
                    | None => ops
                    end in
        let '(b, o, w') := forEachItem e uid rest ops' w in
        (item :: b, o, w')
      else
        let w1 := log (ErrProcessing (operation item)) w in
        if attempts item <? retryAttempts (bsq w1) then
          let item' := bump item in
          let '(b, o, w') := forEachItem e uid rest ops (push [item'] w1) in
          (item' :: b, o, w')
        else
          let '(b, o, w') := forEachItem e uid rest ops w1 in
          (item :: b, o, w')
  end.

(** [processBatch] up to its first suspension (firestore.js:73-121): the
    world it leaves and where the calling drain loop now waits. *)
Definition processBatch (e : Env) (batch : list QueueItem) (w : World)
  : World * Pending :=
  match firebaseDB w, currentUser w with
  | true, Some uid =>
      let '(batch', ops, w1) := forEachItem e uid batch [] w in
      if (0 <? List.length ops)%nat
      then (request w1, AwaitCommit batch' ops)
      else (w1, AwaitReturn)
  | _, _ => (push batch w, AwaitReturn)
  end.

(** [processBatch] from the commit's outcome on (firestore.js:121-131). *)
Definition commitDone (e : Env) (ok : bool) (batch : list QueueItem)
    (ops : list RemoteOp) (w : World) : World :=
  if ok then
    let w1 := set_remote (remote w ++ ops) w in
    let w2 := set_usage (trackFirestoreWrite (Z.of_nat (List.length ops)) (now e)
                                             (usage w1)) w1 in
    log (InfoSynced (List.length ops)) w2
  else
    push (map bump batch) (log ErrCommit w).

(** Replace, or drop, the [k]-th suspended drain loop. *)
Fixpoint replace_nth {A} (k : nat) (x : A) (l : list A) : list A :=
  match l, k with
  | [], _ => []
  | _ :: l', O => x :: l'
  | y :: l', S k' => y :: replace_nth k' x l'
  end.

Fixpoint remove_nth {A} (k : nat) (l : list A) : list A :=
  match l, k with
  | [], _ => []
  | _ :: l', O => l'
  | y :: l', S k' => y :: remove_nth k' l'
  end.

Definition suspend (k : nat) (p : Pending) (w : World) : World :=
  set_drains (replace_nth k p (drains w)) w.

(** The loop is left: the [finally] block clears the flag
    (firestore.js:65-67). *)
Definition finish (k : nat) (w : World) : World :=
  set_processing false (set_drains (remove_nth k (drains w)) w).

(** One turn of the [while] body up to [await this.processBatch(batch)]
    (firestore.js:53-56). *)
Definition takeBatch (e : Env) (w : World) : World * Pending :=
  let q := queue (bsq w) in
  let n := batchSize (bsq w) in
  processBatch e (firstn n q) (set_queue (skipn n q) w).

(** [processQueue] from its entry to its first suspension
    (firestore.js:45-56). *)
Definition processQueue (e : Env) (w : World) : World :=
  if processing (bsq w) || (List.length (queue (bsq w)) =? 0)%nat then w
  else
    let '(w1, p) := takeBatch e (set_processing true w) in
    set_drains (drains w1 ++ [p]) w1.

(** The [k]-th suspended drain loop runs on to its next suspension or to its
    end; [ok] is the outcome of the commit it was waiting for, if it was. *)
Definition resume (e : Env) (k : nat) (ok : bool) (w : World) : World :=
  match nth_error (drains w) k with
  | None => w
  | Some AwaitSleep =>
      (* the [while] test, firestore.js:51 *)
      if (0 <? List.length (queue (bsq w)))%nat then
        let '(w1, p) := takeBatch e w in suspend k p w1
      else finish k w
  | Some p =>
      let w1 := match p with
                | AwaitCommit batch ops => commitDone e ok batch ops w
                | _ => w
                end in
      (* firestore.js:59-61, then the [while] test again *)
      if (0 <? List.length (queue (bsq w1)))%nat then suspend k AwaitSleep w1
      else finish k w1
  end.

(** The object that [enqueue] pushes (firestore.js:27-34). *)
Definition newItem (e : Env) (op coll : string) (d : Data) (i : option string)
  : QueueItem :=
  mkItem op coll d (orElse i (generateId e)) (now e) 0.

(** [enqueue] (firestore.js:26-40). *)
Definition enqueue (e : Env) (op coll : string) (d : Data) (i : option string)
    (w : World) : World :=
  let w1 := push [newItem e op coll d i] w in
  if negb (processing (bsq w1)) then processQueue e w1 else w1.

(** [getStatus] (firestore.js:152-158). *)
Record Status := mkStatus {
  queueLength : nat;
  status_processing : bool;
  pending : nat
}.

Definition getStatus (w : World) : Status :=
  mkStatus (List.length (queue (bsq w))) (processing (bsq w))
           (List.length (queue (bsq w))).

(** [clear] (firestore.js:163-166). *)
Definition clear (w : World) : World :=
  set_processing false (set_queue [] w).

(** ** The public sync API (firestore.js:176-243) *)

(** [queueBackgroundSync] (firestore.js:180-197). *)
Definition queueBackgroundSync (e : Env) (coll : string) (d : Data) (op : string)
    (w : World) : World :=
  match currentUser w, firebaseDB w with
  | Some _, true =>
      let docId := orElse (data_id d) (generateId e) in
      log (InfoQueued op coll) (enqueue e op coll d (Some docId) w)
  | _, _ => log InfoSkipping w
  end.

(** How a call of [immediateSync] settles. *)
Inductive Settled :=
| Resolved (value : bool)
| RejectedNoSession   (* Error('User not logged in or Firebase not initialized') *)
| RejectedAdapter.    (* the error thrown by the Firestore SDK, rethrown *)

(** [Date.now().toString()]. *)
Definition toString (n : Z) : string := NilZero.string_of_int (Z.to_int n).

(** [immediateSync] (firestore.js:203-243), from the call to the settling of
    its promise; [ok] is the outcome of the awaited [set()] or [delete()]. *)
Definition immediateSync (e : Env) (ok : bool) (coll : string) (d : Data)
    (op : string) (w : World) : Settled * World :=
  match currentUser w, firebaseDB w with
  | Some uid, true =>
      let docId := orElse (data_id d) (toString (now e)) in
      let item := mkItem op coll d docId (now e) 0 in
      if builds e uid item then
        match write_of uid item with
        | Some o =>
            if ok then
              let w1 := set_remote (remote w ++ [o]) (request w) in
              let w2 := set_usage (trackFirestoreWrite 1 (now e) (usage w1)) w1 in
              (Resolved true, log (InfoImmediate op coll) w2)
            else (RejectedAdapter, log ErrImmediate (request w))
        | None => (Resolved true, log (InfoImmediate op coll) w)
        end
      else (RejectedAdapter, log ErrImmediate w)
  | _, _ => (RejectedNoSession, w)
  end.

(** ** Runs *)

(** What can happen to the queue between two synchronous runs: a call of its
    API, a session change made by the login code, or the resumption of a
    suspended drain loop. *)
Inductive Event :=
| Enqueue (op coll : string) (d : Data) (i : option string)
| ProcessQueue
| Clear
| QueueBackgroundSync (coll : string) (d : Data) (op : string)
| SetSession (user : option string) (db : bool)
| Resume (k : nat) (ok : bool).

Definition step (w : World) (x : Env * Event) : World :=
  let '(e, ev) := x in
  match ev with
  | Enqueue op coll d i => enqueue e op coll d i w
  | ProcessQueue => processQueue e w
  | Clear => clear w
  | QueueBackgroundSync coll d op => queueBackgroundSync e coll d op w
  | SetSession user db => set_session user db w
  | Resume k ok => resume e k ok w
  end.

Definition run (tr : list (Env * Event)) (w : World) : World :=
  fold_left step tr w.

(** The module as loaded at instant [t0]: an empty idle queue, nobody logged
    in, Firestore not yet initialised. *)
Definition initial (t0 : Z) : World :=
  mkWorld (mkQueue [] false 50 1000 3) None false (initialUsage t0) [] 0 [] [].

(** The drain loop run to its end: the only suspended loop is resumed, every
    commit succeeding, until none is left. *)
Fixpoint drainAll (fuel : nat) (e : Env) (w : World) : option World :=
  match drains w with
  | [] => Some w
  | _ :: _ =>
      match fuel with
      | O => None
      | S fuel' => drainAll fuel' e (resume e 0 true w)
      end
  end.

(** ** Vocabulary of the statements *)

(** The last [k] elements of a list. *)
Definition lastn {A} (k : nat) (l : list A) : list A :=
  skipn (List.length l - k) l.

(** The chart holds at most ten points, the same number in its three arrays. *)
Definition chart_bounded (u : Usage) : Prop :=
  match firestoreUsageChart u with
  | None => True
  | Some c =>
      (List.length (labels c) <= 10)%nat /\
      List.length (reads_data c) = List.length (labels c) /\
      List.length (writes_data c) = List.length (labels c)
  end.

(** The chart after the point [(now, reads, writes)] is appended and only the
    last ten are kept. *)
Definition with_point (now : Z) (s : FirestoreStats) (c : Chart) : Chart :=
  mkChart (lastn 10 (labels c ++ [now]))
          (lastn 10 (reads_data c ++ [reads s]))
          (lastn 10 (writes_data c ++ [writes s])).

(** The three operations the queue is documented to carry. *)
Definition valid_operation (op : string) : Prop :=
  op = "create" \/ op = "update" \/ op = "delete".

(** The writes a list of items stands for, in order. *)
Definition writes_of (uid : string) (items : list QueueItem) : list RemoteOp :=
  flat_map (fun it => match write_of uid it with
                      | Some o => [o]
                      | None => []
                      end) items.

(** [w] with [r] appended to the queue and [l] to the console. *)
Definition grown (w : World) (r : list QueueItem) (l : list LogEntry) : World :=
  mkWorld (mkQueue (queue (bsq w) ++ r) (processing (bsq w)) (batchSize (bsq w))
                   (throttleDelay (bsq w)) (retryAttempts (bsq w)))
          (currentUser w) (firebaseDB w) (usage w) (remote w) (requests w)
          (console w ++ l) (drains w).

(** The item's construction throws and the [catch] block queues it again. *)
Definition requeued (e : Env) (uid : string) (retry : Z) (it : QueueItem) : bool :=
  negb (builds e uid it) && (attempts it <? retry).

(** Two queue items that differ at most in [attempts]. *)
Definition same_identity (x y : QueueItem) : Prop :=
  id y = id x /\ operation y = operation x /\ collection y = collection x /\
  data y = data x /\ timestamp y = timestamp x.

(** The session precondition of firestore.js:74. *)
Definition session (w : World) (uid : string) : Prop :=
  currentUser w = Some uid /\ firebaseDB w = true.

Definition no_session (w : World) : Prop :=
  currentUser w = None \/ firebaseDB w = false.

(** Nothing queued, no drain loop running or suspended. *)
Definition idle (w : World) : Prop :=
  queue (bsq w) = [] /\ processing (bsq w) = false /\ drains w = [].

(** The flag tells whether a drain loop exists, and there is at most one. *)
Definition single_drain (w : World) : Prop :=
  (List.length (drains w) <= 1)%nat /\
  (processing (bsq w) = true <-> drains w <> []).

Definition is_clear (ev : Event) : bool :=
  match ev with Clear => true | _ => false end.

(** An environment in which Firestore accepts every reference and write. *)
Definition accepting (e : Env) : Prop := forall uid it, builds e uid it = true.

(** A step of a run in which nothing fails: an [enqueue] of one of the three
    operations, a call of [processQueue], or a resumption whose commit
    succeeded, Firestore accepting every write. *)
Definition quiet (x : Env * Event) : Prop :=
  accepting (fst x) /\
  match snd x with
  | Enqueue op _ _ _ => valid_operation op
  | ProcessQueue => True
  | Resume _ ok => ok = true
  | _ => False
  end.

(** The items that the [enqueue] calls of a run have put in the queue. *)
Definition enqueued (tr : list (Env * Event)) : list QueueItem :=
  flat_map (fun x => match snd x with
                     | Enqueue op coll d i => [newItem (fst x) op coll d i]
                     | _ => []
                     end) tr.

(** The writes of the commit that a suspended drain loop is waiting for. *)
Definition pending_ops (p : Pending) : list RemoteOp :=
  match p with
  | AwaitCommit _ ops => ops
  | _ => []
  end.

Definition inflight (w : World) : list RemoteOp :=
  flat_map pending_ops (drains w).

(** The invariant of a run in which nothing fails, started in [w0] with the
    user [uid] logged in, [items] having been enqueued so far: the writes
    committed since [w0], then those in flight, then those of the queue, are
    the writes of [items], one per item and in order. *)
Definition conserved (uid : string) (w0 : World) (items : list QueueItem)
    (w : World) : Prop :=
  session w uid /\ single_drain w /\
  (drains w = [] -> queue (bsq w) = []) /\
  Forall (fun it => valid_operation (operation it)) (queue (bsq w)) /\
  batchSize (bsq w) = batchSize (bsq w0) /\
  exists done,
    remote w = remote w0 ++ done /\
    done ++ inflight w ++ writes_of uid (queue (bsq w)) = writes_of uid items.

(** Resumptions enough to end the only drain loop of [w], when each batch
    takes at least one item. *)
Definition resumptions (w : World) : nat :=
  match drains w with
  | [] => 0
  | AwaitSleep :: _ => 2 * List.length (queue (bsq w)) + 1
  | _ :: _ => 2 * List.length (queue (bsq w)) + 2
  end.

(** Fixtures of the examples: an environment at instant [t] in which
    Firestore accepts every write, a document without an id, and the module
    with a user logged in. *)
Definition envAt (t : Z) : Env := mkEnv t "k3f9x" (fun _ _ => true).

Definition noData : Data := mkData None [].

Definition loggedIn (uid : string) : World :=
  set_session (Some uid) true (initial 0).


(** ** The rest of the tracker (firestore.js:266-294, 471-501) *)

(** [loadFirestoreStats] (firestore.js:266-294).  The stored entry is what
    [saveFirestoreStats] wrote, so [JSON.parse] gives that object back; a
    [lastReset] that is falsy (zero) is replaced by the current instant, and
    the reset check then runs.  With no entry the counters start afresh. *)
Definition loadFirestoreStats (now : Z) (u : Usage) : Usage :=
  match localStorage u with
  | Some s =>
      let s' := if lastReset s =? 0
                then mkStats (reads s) (writes s) (history s) now
                else s in
      checkAndAutoResetFirestoreStats now
        (mkUsage s' (firestoreUsageChart u) (localStorage u))
  | None => mkUsage (mkStats 0 0 [] now) (firestoreUsageChart u) (localStorage u)
  end.

(** [resetFirestoreStats] (firestore.js:472-484): a fresh stats object, the
    display update, then the chart emptied.  It does not call
    [saveFirestoreStats]. *)
Definition resetFirestoreStats (now : Z) (u : Usage) : Usage :=
  let u1 := updateFirestoreDisplay now
              (mkUsage (mkStats 0 0 [] now) (firestoreUsageChart u)
                       (localStorage u)) in
  match firestoreUsageChart u1 with
  | Some _ => mkUsage (firestoreStats u1) (Some emptyChart) (localStorage u1)
  | None => u1
  end.

(** The timer callback of [window.openDataMenu] (firestore.js:496-500): the
    chart is created once; [canvas] tells whether the canvas element and its
    2d context were found ([initFirestoreUsageChart] returns early
    otherwise). *)
Definition openDataMenu (canvas : bool) (u : Usage) : Usage :=
  match firestoreUsageChart u with
  | Some _ => u
  | None => if canvas then initFirestoreUsageChart u else u
  end.

(** A call into the tracker. *)
Inductive TrackerCall :=
| TrackRead (count : Z)
| TrackWrite (count : Z)
| LoadStats
| ResetStats
| OpenDataMenu (canvas : bool).

Definition trackerStep (u : Usage) (x : Z * TrackerCall) : Usage :=
  match snd x with
  | TrackRead n => trackFirestoreRead n (fst x) u
  | TrackWrite n => trackFirestoreWrite n (fst x) u
  | LoadStats => loadFirestoreStats (fst x) u
  | ResetStats => resetFirestoreStats (fst x) u
  | OpenDataMenu canvas => openDataMenu canvas u
  end.

Definition trackerRun (calls : list (Z * TrackerCall)) (u : Usage) : Usage :=
  fold_left trackerStep calls u.




(** No sample anywhere: in the stats in memory and in the stored entry. *)
Definition history_empty (u : Usage) : Prop :=
  history (firestoreStats u) = [] /\
  forall s, localStorage u = Some s -> history s = [].

(** ** More vocabulary for the queue *)

(** A step of a run in which Firestore accepts every write but commits may
    fail: like [quiet], with any commit outcome. *)
Definition calm (x : Env * Event) : Prop :=
  accepting (fst x) /\
  match snd x with
  | Enqueue op _ _ _ => valid_operation op
  | ProcessQueue => True
  | Resume _ _ => True
  | _ => False
  end.

(** The batch that a suspended drain loop holds. *)
Definition pending_batch (p : Pending) : list QueueItem :=
  match p with
  | AwaitCommit batch _ => batch
  | _ => []
  end.

(** The invariant of a calm run: the writes committed since [w0], those in
    flight and those of the queue are the writes of the enqueued [items], each
    once, in some order; the write batch in flight is that of the batch
    held. *)
Definition accounted (uid : string) (w0 : World) (items : list QueueItem)
    (w : World) : Prop :=
  session w uid /\ single_drain w /\
  (drains w = [] -> queue (bsq w) = []) /\
  Forall (fun it => valid_operation (operation it)) (queue (bsq w)) /\
  Forall (fun p => pending_ops p = writes_of uid (pending_batch p) /\
                   Forall (fun it => valid_operation (operation it))
                          (pending_batch p)) (drains w) /\
  batchSize (bsq w) = batchSize (bsq w0) /\
  exists done,
    remote w = remote w0 ++ done /\
    Permutation (done ++ inflight w ++ writes_of uid (queue (bsq w)))
                (writes_of uid items).

(** The only drain loop is resumed [n] times, every commit failing. *)
Definition failedResumes (n : nat) (e : Env) (w : World) : World :=
  Nat.iter n (resume e 0 false) w.

(** A drain loop that has something to retry: a batch in flight, or items
    queued behind a sleep. *)
Definition retrying (uid : string) (w : World) : Prop :=
  session w uid /\ (0 < batchSize (bsq w))%nat /\
  Forall (fun it => valid_operation (operation it)) (queue (bsq w)) /\
  ((exists batch ops, drains w = [AwaitCommit batch ops] /\ batch <> [] /\
      Forall (fun it => valid_operation (operation it)) batch) \/
   (drains w = [AwaitSleep] /\ queue (bsq w) <> [])).

(** A drain loop running without a session over a queue that is not empty. *)
Definition spinning (w : World) : Prop :=
  no_session w /\ (exists p, drains w = [p]) /\ queue (bsq w) <> [].

(** * The bridge (bridge.js) *)

Module Bridge.

(** The module variables [bridgeReady], [initializationComplete] and the
    three fields of [BridgeState] (bridge.js:22-29). *)
Record Flags := mkFlags {
  bridgeReady : bool;
  initializationComplete : bool;
  dataLayerReady : bool;
  appLayerReady : bool;
  uiLayerReady : bool
}.

Inductive Log :=
| Starting          (* '[Bridge] Starting initialization...' *)
| UiReady           (* '[Bridge] UI Layer ready' *)
| DataReady         (* '[Bridge] Data Layer ready' *)
| AppReady          (* '[Bridge] App Layer ready' *)
| Initialized       (* '[Bridge] Bridge fully initialized and operational' *)
| DataTimeout       (* '[Bridge] Data layer timeout - continuing anyway' *)
| AppTimeout        (* '[Bridge] App layer timeout - continuing anyway' *)
| ModuleLoaded.     (* '[Bridge] Module loaded' *)

(** Where [initializeBridge] is suspended: at [await waitForDOM()], at
    [await waitForDataLayer()] or [await waitForAppLayer()] with the interval
    callback's counter [attempts], or finished. *)
Inductive Phase :=
| AwaitDOM
| AwaitDataLayer (attempts : nat)
| AwaitAppLayer (attempts : nat)
| Done.

Record World := mkWorld {
  flags : Flags;
  phase : Phase;
  console : list Log
}.

(** What reaches the bridge: the promise of [waitForDOM] resolves (the
    document was already loaded, or DOMContentLoaded fires), or the 50 ms
    interval fires; [ready] is then the condition that the running wait
    tests: [typeof idb !== 'undefined' && idb.init] for the data layer,
    [typeof showTab !== 'undefined' || document.readyState === 'complete']
    for the app layer. *)
Inductive Event :=
| DomReady
| Tick (ready : bool).

Definition dataMaxAttempts : nat := 200.
Definition appMaxAttempts : nat := 100.

(** The script as loaded (bridge.js:22-29, 174-178): [initializeBridge] has
    run up to its first [await]. *)
Definition loaded : World :=
  mkWorld (mkFlags false false false false false) AwaitDOM
          [Starting; ModuleLoaded].

Definition set_ui (f : Flags) : Flags :=
  mkFlags (bridgeReady f) (initializationComplete f) (dataLayerReady f)
          (appLayerReady f) true.

Definition set_data (f : Flags) : Flags :=
  mkFlags (bridgeReady f) (initializationComplete f) true
          (appLayerReady f) (uiLayerReady f).

Definition set_app_and_ready (f : Flags) : Flags :=
  mkFlags true true (dataLayerReady f) true (uiLayerReady f).

(** [initializeBridge] (bridge.js:31-49) with the interval callbacks of
    [waitForDataLayer] (bridge.js:61-81) and [waitForAppLayer]
    (bridge.js:83-103), one event at a time.  A callback counts the attempt,
    resolves when the layer is ready, and also warns and resolves when the
    count has reached the maximum; [initializeBridge] then goes on to its
    next [await]. *)
Definition step (w : World) (ev : Event) : World :=
  match phase w, ev with
  | AwaitDOM, DomReady =>
      mkWorld (set_ui (flags w)) (AwaitDataLayer 0) (console w ++ [UiReady])
  | AwaitDataLayer attempts, Tick ready =>
      let attempts' := S attempts in
      let timeout := (dataMaxAttempts <=? attempts')%nat in
      if ready || timeout then
        mkWorld (set_data (flags w)) (AwaitAppLayer 0)
                (console w ++ (if timeout then [DataTimeout] else [])
                           ++ [DataReady])
      else mkWorld (flags w) (AwaitDataLayer attempts') (console w)
  | AwaitAppLayer attempts, Tick ready =>
      let attempts' := S attempts in
      let timeout := (appMaxAttempts <=? attempts')%nat in
      if ready || timeout then
        mkWorld (set_app_and_ready (flags w)) Done
                (console w ++ (if timeout then [AppTimeout] else [])
                           ++ [AppReady; Initialized])
      else mkWorld (flags w) (AwaitAppLayer attempts') (console w)
  | _, _ => w
  end.

Definition run (evs : list Event) (w : World) : World := fold_left step evs w.

(** [DataBridge.isReady] (bridge.js:106-108). *)
Definition isReady (w : World) : bool :=
  bridgeReady (flags w) && dataLayerReady (flags w).

(** [DataBridge.getStatus] (bridge.js:110-115). *)
Record Status := mkStatus {
  ready : bool;
  status_dataLayerReady : bool;
  status_appLayerReady : bool;
  status_uiLayerReady : bool
}.

Definition getStatus (w : World) : Status :=
  mkStatus (bridgeReady (flags w)) (dataLayerReady (flags w))
           (appLayerReady (flags w)) (uiLayerReady (flags w)).

(** The flags are raised in the order ui, data, app, bridge. *)
Definition ordered (w : World) : Prop :=
  match phase w with
  | AwaitDOM => flags w = mkFlags false false false false false
  | AwaitDataLayer n =>
      flags w = mkFlags false false false false true /\
      (n < dataMaxAttempts)%nat
  | AwaitAppLayer n =>
      flags w = mkFlags false false true false true /\
      (n < appMaxAttempts)%nat
  | Done => flags w = mkFlags true true true true true
  end.

(** The interval ticks among the events. *)
Definition ticks (evs : list Event) : nat :=
  List.length (filter (fun ev => match ev with Tick _ => true | _ => false end)
                      evs).

(** The interval ticks still needed, at most, to finish the initialization. *)
Definition ticks_left (w : World) : nat :=
  match phase w with
  | AwaitDOM => dataMaxAttempts + appMaxAttempts
  | AwaitDataLayer n => (dataMaxAttempts - n) + appMaxAttempts
  | AwaitAppLayer n => appMaxAttempts - n
  | Done => 0
  end.

End Bridge.

(** * The service worker (src/unnamed/part_000) *)

Module ServiceWorker.

Definition CACHE_NAME : string := "naswar-dealer-v17".

Definition ASSETS_TO_CACHE : list string :=
  ["./"; "./index.html"; "./manifest.json"; "./192.png"; "./512.png"].

(** A request: its URL and whether [request.mode === 'navigate']. *)
Record Request := mkRequest {
  url : string;
  navigate : bool
}.

(** A response: whether its status is in the 200 range, and its body. *)
Record Response := mkResponse {
  ok : bool;
  body : string
}.

(** A cache maps a URL to the response stored for it; the cache storage
    keeps the named caches in the order of their creation, which is the
    order in which [caches.match] searches them. *)
Definition Cache := list (string * Response).
Definition CacheStorage := list (string * Cache).

(** The network: the response [fetch] resolves with, or none when it
    rejects. *)
Definition Network := string -> option Response.

(** [cache.match]. *)
Fixpoint cacheMatch (u : string) (c : Cache) : option Response :=
  match c with
  | [] => None
  | (u', r) :: c' => if String.eqb u' u then Some r else cacheMatch u c'
  end.

(** [cache.put]: the entry of the URL is replaced, or added. *)
Fixpoint cachePut (u : string) (r : Response) (c : Cache) : Cache :=
  match c with
  | [] => [(u, r)]
  | (u', r') :: c' =>
      if String.eqb u' u then (u, r) :: c' else (u', r') :: cachePut u r c'
  end.

(** [caches.match]: the first cache, in creation order, that has the URL. *)
Fixpoint cachesMatch (u : string) (cs : CacheStorage) : option Response :=
  match cs with
  | [] => None
  | (_, c) :: cs' =>
      match cacheMatch u c with
      | Some r => Some r
      | None => cachesMatch u cs'
      end
  end.

(** [caches.open(name).then(cache => cache.put(u, r))]: the cache is created,
    last, when there is none of that name. *)
Fixpoint cachesPut (name u : string) (r : Response) (cs : CacheStorage)
  : CacheStorage :=
  match cs with
  | [] => [(name, [(u, r)])]
  | (n, c) :: cs' =>
      if String.eqb n name then (n, cachePut u r c) :: cs'
      else (n, c) :: cachesPut name u r cs'
  end.

(** [caches.open(name)] alone. *)
Fixpoint cachesOpen (name : string) (cs : CacheStorage) : CacheStorage :=
  match cs with
  | [] => [(name, [])]
  | (n, c) :: cs' =>
      if String.eqb n name then cs else (n, c) :: cachesOpen name cs'
  end.

(** The fetches of [cache.addAll]: every URL must be answered, with an ok
    status. *)
Fixpoint fetchAll (net : Network) (urls : list string)
  : option (list (string * Response)) :=
  match urls with
  | [] => Some []
  | u :: urls' =>
      match net u with
      | Some r =>
          if ok r then
            match fetchAll net urls' with
            | Some rs => Some ((u, r) :: rs)
            | None => None
            end
          else None
      | None => None
      end
  end.

(** The install handler (part_000:12-21): the cache is opened and all the
    assets are added, or none is and the installation fails. *)
Definition install (net : Network) (cs : CacheStorage) : bool * CacheStorage :=
  match fetchAll net ASSETS_TO_CACHE with
  | Some rs =>
      (true, fold_left (fun acc x => cachesPut CACHE_NAME (fst x) (snd x) acc)
                       rs (cachesOpen CACHE_NAME cs))
  | None => (false, cachesOpen CACHE_NAME cs)
  end.

(** The activate handler (part_000:24-39): every cache whose name is not the
    current one is deleted, one console line each. *)
Definition activate (cs : CacheStorage) : CacheStorage * list string :=
  (filter (fun x => String.eqb (fst x) CACHE_NAME) cs,
   map fst (filter (fun x => negb (String.eqb (fst x) CACHE_NAME)) cs)).

(** The fetch handler (part_000:42-75), once its promises have settled: the
    response handed to [respondWith] (none is a network error for the page)
    and the cache storage.  Requests are GET requests, which [cache.put]
    accepts.  A navigation asks the network first and falls
    back on the caches; any other request is answered from the caches when
    they have it and from the network otherwise, and in both cases a
    response from the network is stored. *)
Definition onFetch (net : Network) (req : Request) (cs : CacheStorage)
  : option Response * CacheStorage :=
  if navigate req then
    match net (url req) with
    | Some r => (Some r, cachesPut CACHE_NAME (url req) r cs)
    | None => (cachesMatch (url req) cs, cs)
    end
  else
    let cached := cachesMatch (url req) cs in
    let cs' := match net (url req) with
               | Some r => cachesPut CACHE_NAME (url req) r cs
               | None => cs
               end in
    (match cached with
     | Some r => Some r
     | None => net (url req)
     end, cs').

(** [caches.open(name)] read-only: the cache of that name, if any. *)
Fixpoint cacheNamed (name : string) (cs : CacheStorage) : option Cache :=
  match cs with
  | [] => None
  | (n, c) :: cs' => if String.eqb n name then Some c else cacheNamed name cs'
  end.

(** No cache of another version is left, as after [activate]. *)
Definition only_current (cs : CacheStorage) : Prop :=
  Forall (fun x => fst x = CACHE_NAME) cs.

(** The network is down. *)
Definition offline : Network := fun _ => None.

(** The caches have distinct names. *)
Definition distinct_names (cs : CacheStorage) : Prop := NoDup (map fst cs).

End ServiceWorker.

(** * The usage tracker *)

Lemma reset_due_iff now s :
  Qle_bool (inject_Z 24) (hoursSinceReset now s) = true <->
  24 * 60 * 60 * 1000 <= now - lastReset s.
Proof.
  rewrite Qle_bool_iff.
  unfold hoursSinceReset, Qle, Qdiv, Qmult, Qinv, inject_Z.
  simpl. lia.
Qed.

Lemma updateFirestoreChart_stats now u :
  firestoreStats (updateFirestoreChart now u) = firestoreStats u /\
  localStorage (updateFirestoreChart now u) = localStorage u.
Proof.
  unfold updateFirestoreChart.
  destruct (firestoreUsageChart u); simpl; auto.
Qed.

Lemma updateFirestoreDisplay_stats now u :
  firestoreStats (updateFirestoreDisplay now u) = firestoreStats u /\
  localStorage (updateFirestoreDisplay now u) = localStorage u.
Proof.
  unfold updateFirestoreDisplay.
  destruct (_ =? 0); auto using updateFirestoreChart_stats.
Qed.

Lemma checkAndAutoReset_due now u :
  24 * 60 * 60 * 1000 <= now - lastReset (firestoreStats u) ->
  firestoreStats (checkAndAutoResetFirestoreStats now u) = mkStats 0 0 [] now.
Proof.
  intros H. apply reset_due_iff in H.
  unfold checkAndAutoResetFirestoreStats. rewrite H.
  match goal with
  | |- context [updateFirestoreDisplay ?n ?v] =>
      destruct (updateFirestoreDisplay_stats n v) as [Hs _];
      destruct (firestoreUsageChart (updateFirestoreDisplay n v)); simpl;
      rewrite Hs; reflexivity
  end.
Qed.

Lemma checkAndAutoReset_not_due now u :
  now - lastReset (firestoreStats u) < 24 * 60 * 60 * 1000 ->
  checkAndAutoResetFirestoreStats now u = u.
Proof.
  intros H. unfold checkAndAutoResetFirestoreStats.
  destruct (Qle_bool _ _) eqn:E; [|reflexivity].
  apply reset_due_iff in E. lia.
Qed.

Lemma trackFirestoreRead_stats n now u :
  let s := firestoreStats (checkAndAutoResetFirestoreStats now u) in
  firestoreStats (trackFirestoreRead n now u) =
  mkStats (reads s + n) (writes s) (history s) (lastReset s).
Proof.
  unfold trackFirestoreRead.
  match goal with
  | |- context [updateFirestoreDisplay ?n ?v] =>
      destruct (updateFirestoreDisplay_stats n v) as [Hs _]; simpl; rewrite Hs
  end.
  reflexivity.
Qed.

Lemma trackFirestoreWrite_stats n now u :
  let s := firestoreStats (checkAndAutoResetFirestoreStats now u) in
  firestoreStats (trackFirestoreWrite n now u) =
  mkStats (reads s) (writes s + n) (history s) (lastReset s).
Proof.
  unfold trackFirestoreWrite.
  match goal with
  | |- context [updateFirestoreDisplay ?n ?v] =>
      destruct (updateFirestoreDisplay_stats n v) as [Hs _]; simpl; rewrite Hs
  end.
  reflexivity.
Qed.

(** The reset instant never runs ahead of the clock. *)
Lemma checkAndAutoReset_lastReset now u :
  lastReset (firestoreStats u) <= now ->
  lastReset (firestoreStats (checkAndAutoResetFirestoreStats now u)) <= now.
Proof.
  intros H.
  destruct (Z_lt_le_dec (now - lastReset (firestoreStats u)) (24 * 60 * 60 * 1000)).
  - rewrite checkAndAutoReset_not_due; assumption.
  - rewrite checkAndAutoReset_due by assumption. simpl. lia.
Qed.

(** C7. A record call made 24 hours or more after [lastReset] first resets
    reads, writes and history and sets [lastReset] to the current instant,
    and only then adds its count: a read call leaves reads = n and writes = 0,
    a write call reads = 0 and writes = n.  In particular 3 reads and 5
    writes, then 25 hours later 1 read, leave reads = 1 and writes = 0. *)
Theorem C7_reset_before_increment :
  (forall n now u,
      24 * 60 * 60 * 1000 <= now - lastReset (firestoreStats u) ->
      firestoreStats (checkAndAutoResetFirestoreStats now u) = mkStats 0 0 [] now /\
      firestoreStats (trackFirestoreRead n now u) = mkStats (0 + n) 0 [] now /\
      firestoreStats (trackFirestoreWrite n now u) = mkStats 0 (0 + n) [] now) /\
  (forall u t1 t2,
      lastReset (firestoreStats u) <= t1 -> t1 <= t2 ->
      let u' := trackFirestoreRead 1 (t2 + 25 * 60 * 60 * 1000)
                  (trackFirestoreWrite 5 t2 (trackFirestoreRead 3 t1 u)) in
      reads (firestoreStats u') = 1 /\ writes (firestoreStats u') = 0).
Proof.
  split.
  - intros n now u H. split; [|split].
    + apply checkAndAutoReset_due, H.
    + rewrite trackFirestoreRead_stats, checkAndAutoReset_due by assumption.
      reflexivity.
    + rewrite trackFirestoreWrite_stats, checkAndAutoReset_due by assumption.
      reflexivity.
  - intros u t1 t2 H1 H2 u'. subst u'.
    set (v := trackFirestoreWrite 5 t2 (trackFirestoreRead 3 t1 u)).
    assert (Hv : lastReset (firestoreStats v) <= t2).
    { subst v. rewrite trackFirestoreWrite_stats. simpl.
      apply checkAndAutoReset_lastReset.
      rewrite trackFirestoreRead_stats. simpl.
      pose proof (checkAndAutoReset_lastReset t1 u H1). lia. }
    rewrite trackFirestoreRead_stats, checkAndAutoReset_due by lia.
    simpl. split; reflexivity.
Qed.

Lemma C7_reset_before_increment_witness :
  firestoreStats (trackFirestoreRead 1 90000000 (initialUsage 0)) =
    mkStats 1 0 [] 90000000 /\
  reads (firestoreStats
           (trackFirestoreRead 1 (20 + 25 * 60 * 60 * 1000)
              (trackFirestoreWrite 5 20 (trackFirestoreRead 3 10 (initialUsage 0)))))
    = 1.
Proof.
  split.
  - apply (proj1 C7_reset_before_increment 1 90000000 (initialUsage 0)).
    simpl. lia.
  - apply (proj2 C7_reset_before_increment (initialUsage 0) 10 20); simpl; lia.
Defined.

Lemma shift_or_keep {A} (n : nat) (l : list A) (x : A) :
  List.length l = n -> (n <= 10)%nat ->
  (if (10 <? n + 1)%nat then shift (l ++ [x]) else l ++ [x]) = lastn 10 (l ++ [x]).
Proof.
  intros Hl Hn. unfold lastn, shift. rewrite length_app, Hl. simpl.
  destruct (Nat.ltb_spec 10 (n + 1)).
  - replace (n + 1 - 10)%nat with 1%nat by lia. reflexivity.
  - replace (n + 1 - 10)%nat with 0%nat by lia. reflexivity.
Qed.

Lemma lastn_length {A} (k : nat) (l : list A) :
  List.length (lastn k l) = Nat.min k (List.length l).
Proof. unfold lastn. rewrite length_skipn. lia. Qed.

Lemma updateFirestoreChart_bounded now u :
  chart_bounded u ->
  firestoreUsageChart (updateFirestoreChart now u) =
    option_map (with_point now (firestoreStats u)) (firestoreUsageChart u) /\
  chart_bounded (updateFirestoreChart now u).
Proof.
  unfold chart_bounded, updateFirestoreChart.
  destruct (firestoreUsageChart u) as [c|] eqn:Ec; simpl.
  - intros (Hl & Hr & Hw).
    rewrite length_app. simpl.
    assert (Hc : (if (10 <? List.length (labels c) + 1)%nat
                  then mkChart (shift (labels c ++ [now]))
                               (shift (reads_data c ++ [reads (firestoreStats u)]))
                               (shift (writes_data c ++ [writes (firestoreStats u)]))
                  else mkChart (labels c ++ [now])
                               (reads_data c ++ [reads (firestoreStats u)])
                               (writes_data c ++ [writes (firestoreStats u)]))
                 = with_point now (firestoreStats u) c).
    { unfold with_point.
      rewrite <- (shift_or_keep (List.length (labels c)) (labels c)) by auto.
      rewrite <- (shift_or_keep (List.length (labels c)) (reads_data c)) by auto.
      rewrite <- (shift_or_keep (List.length (labels c)) (writes_data c)) by auto.
      destruct (10 <? _)%nat; reflexivity. }
    rewrite Hc. split; [reflexivity|].
    unfold with_point; cbn [labels reads_data writes_data].
    rewrite !lastn_length, !length_app. cbn [List.length]. lia.
  - rewrite Ec. auto.
Qed.

Lemma checkAndAutoReset_chart now u :
  firestoreUsageChart (checkAndAutoResetFirestoreStats now u) =
    if Qle_bool (inject_Z 24) (hoursSinceReset now (firestoreStats u))
    then option_map (fun _ => emptyChart) (firestoreUsageChart u)
    else firestoreUsageChart u.
Proof.
  unfold checkAndAutoResetFirestoreStats.
  destruct (Qle_bool _ _); [|reflexivity].
  unfold updateFirestoreDisplay, updateFirestoreChart, saveFirestoreStats. simpl.
  destruct (firestoreUsageChart u); reflexivity.
Qed.

Lemma checkAndAutoReset_history now u :
  history (firestoreStats (checkAndAutoResetFirestoreStats now u)) =
    if Qle_bool (inject_Z 24) (hoursSinceReset now (firestoreStats u))
    then [] else history (firestoreStats u).
Proof.
  destruct (Qle_bool _ _) eqn:E.
  - apply reset_due_iff in E. rewrite checkAndAutoReset_due by assumption.
    reflexivity.
  - unfold checkAndAutoResetFirestoreStats. rewrite E. reflexivity.
Qed.

Lemma checkAndAutoReset_bounded now u :
  chart_bounded u -> chart_bounded (checkAndAutoResetFirestoreStats now u).
Proof.
  unfold chart_bounded. rewrite checkAndAutoReset_chart.
  destruct (Qle_bool _ _); [|auto].
  destruct (firestoreUsageChart u); simpl; auto.
  intros _. repeat split. lia.
Qed.

Lemma updateFirestoreDisplay_chart now u :
  chart_bounded u ->
  firestoreUsageChart (updateFirestoreDisplay now u) =
    (if Z.rem (reads (firestoreStats u) + writes (firestoreStats u)) 10 =? 0
     then option_map (with_point now (firestoreStats u)) (firestoreUsageChart u)
     else firestoreUsageChart u) /\
  chart_bounded (updateFirestoreDisplay now u).
Proof.
  intros H. unfold updateFirestoreDisplay.
  destruct (_ =? 0); auto using updateFirestoreChart_bounded.
Qed.

(** What one record call does to the tracker, whichever counter it adds to. *)
Lemma record_call_effect now u v :
  chart_bounded u ->
  firestoreUsageChart v = firestoreUsageChart (checkAndAutoResetFirestoreStats now u) ->
  history (firestoreStats v) =
    history (firestoreStats (checkAndAutoResetFirestoreStats now u)) ->
  let u' := updateFirestoreDisplay now (saveFirestoreStats v) in
  chart_bounded u' /\
  localStorage u' = Some (firestoreStats u') /\
  (history (firestoreStats u') = history (firestoreStats u) \/
   history (firestoreStats u') = []) /\
  firestoreUsageChart u' =
    (if Z.rem (reads (firestoreStats u') + writes (firestoreStats u')) 10 =? 0
     then option_map (with_point now (firestoreStats u'))
                     (firestoreUsageChart (checkAndAutoResetFirestoreStats now u))
     else firestoreUsageChart (checkAndAutoResetFirestoreStats now u)).
Proof.
  intros Hb Hc Hh u'.
  assert (Hbv : chart_bounded (saveFirestoreStats v)).
  { pose proof (checkAndAutoReset_bounded now u Hb) as H.
    unfold chart_bounded in *. simpl. rewrite Hc. exact H. }
  destruct (updateFirestoreDisplay_chart now _ Hbv) as [Hch Hb'].
  destruct (updateFirestoreDisplay_stats now (saveFirestoreStats v)) as [Hs Hl].
  subst u'. rewrite Hs, Hl. simpl in *.
  split; [exact Hb'|]. split; [reflexivity|]. split.
  - rewrite Hh, checkAndAutoReset_history. destruct (Qle_bool _ _); auto.
  - rewrite Hch, Hc. reflexivity.
Qed.

(** C9, as the code has it.  The rolling window of at most ten points lives
    in the chart, which is not persisted: a record call appends one point,
    and only when reads + writes is then a multiple of ten, to the chart the
    reset check left (the chart as it was, or emptied by an auto-reset).
    The persisted record is the whole stats object, and its history is never
    appended to: a record call leaves it as it was or, on auto-reset, empty. *)
Theorem C9_samples_in_chart_history_untouched : forall n now u u',
  chart_bounded u ->
  u' = trackFirestoreRead n now u \/ u' = trackFirestoreWrite n now u ->
  chart_bounded u' /\
  localStorage u' = Some (firestoreStats u') /\
  (history (firestoreStats u') = history (firestoreStats u) \/
   history (firestoreStats u') = []) /\
  firestoreUsageChart u' =
    (if Z.rem (reads (firestoreStats u') + writes (firestoreStats u')) 10 =? 0
     then option_map (with_point now (firestoreStats u'))
                     (firestoreUsageChart (checkAndAutoResetFirestoreStats now u))
     else firestoreUsageChart (checkAndAutoResetFirestoreStats now u)) /\
  (firestoreUsageChart (checkAndAutoResetFirestoreStats now u) = firestoreUsageChart u \/
   firestoreUsageChart (checkAndAutoResetFirestoreStats now u) =
     option_map (fun _ => emptyChart) (firestoreUsageChart u)).
Proof.
  intros n now u u' Hb Hu'.
  assert (Hlast : firestoreUsageChart (checkAndAutoResetFirestoreStats now u) =
                    firestoreUsageChart u \/
                  firestoreUsageChart (checkAndAutoResetFirestoreStats now u) =
                    option_map (fun _ => emptyChart) (firestoreUsageChart u)).
  { rewrite checkAndAutoReset_chart. destruct (Qle_bool _ _); auto. }
  destruct Hu' as [-> | ->]; unfold trackFirestoreRead, trackFirestoreWrite;
    (edestruct (record_call_effect now u) as (H1 & H2 & H3 & H4);
     [exact Hb | | | repeat split; [exact H1 | exact H2 | exact H3 | exact H4 | exact Hlast]]);
    reflexivity.
Qed.

Lemma C9_samples_in_chart_history_untouched_witness :
  let u := initFirestoreUsageChart (initialUsage 0) in
  chart_bounded (trackFirestoreWrite 10 1000 u) /\
  localStorage (trackFirestoreWrite 10 1000 u) =
    Some (firestoreStats (trackFirestoreWrite 10 1000 u)).
Proof.
  intro u.
  destruct (C9_samples_in_chart_history_untouched 10 1000 u
              (trackFirestoreWrite 10 1000 u)) as (H1 & H2 & _).
  - subst u. unfold chart_bounded. simpl. lia.
  - right. reflexivity.
  - split; assumption.
Defined.

(** C9 as stated fails: with the chart open, recording ten writes puts the
    point (1000, 0, 10) in the chart, while the history of the persisted
    record stays empty. *)
Lemma C9_counterexample :
  let u := trackFirestoreWrite 10 1000 (initFirestoreUsageChart (initialUsage 0)) in
  firestoreUsageChart u = Some (mkChart [1000] [0] [10]) /\
  localStorage u = Some (mkStats 0 10 [] 0) /\
  ~ (exists s, localStorage u = Some s /\
               In (mkSample 1000 0 10) (history s)).
Proof.
  vm_compute. split; [reflexivity|]. split; [reflexivity|].
  intros (s & Hs & Hin). inversion Hs; subst. exact Hin.
Qed.

(** * The sync queue *)

(** C10. In every snapshot that [getStatus] returns, [pending] and
    [queueLength] are the same number, the current length of the queue. *)
Theorem C10_pending_is_queueLength : forall w,
  pending (getStatus w) = queueLength (getStatus w) /\
  queueLength (getStatus w) = List.length (queue (bsq w)).
Proof. intros w. split; reflexivity. Qed.

(** ** What the for loop of [processBatch] computes *)

Lemma grown_nil w : grown w [] [] = w.
Proof.
  destruct w as [[q p b t r] u f us rm rq c d]. unfold grown. simpl.
  rewrite !app_nil_r. reflexivity.
Qed.

Lemma grown_grown w r l r' l' :
  grown (grown w r l) r' l' = grown w (r ++ r') (l ++ l').
Proof. unfold grown. simpl. rewrite !app_assoc. reflexivity. Qed.

Lemma log_grown l w : log l w = grown w [] [l].
Proof.
  destruct w as [[q p b t r] u f us rm rq c d]. unfold grown, log. simpl.
  rewrite app_nil_r. reflexivity.
Qed.

Lemma push_grown items w : push items w = grown w items [].
Proof.
  destruct w as [[q p b t r] u f us rm rq c d]. unfold grown, push, set_queue,
    set_bsq. simpl. rewrite app_nil_r. reflexivity.
Qed.

(** The loop in closed form: the array it leaves, the Firestore batch it has
    built, and the world, with the retried items appended to the queue and one
    error line per failed construction. *)
Lemma forEachItem_eq e uid batch : forall ops w,
  forEachItem e uid batch ops w =
  (map (fun it => if requeued e uid (retryAttempts (bsq w)) it then bump it else it)
       batch,
   ops ++ writes_of uid (filter (builds e uid) batch),
   grown w
     (map bump (filter (requeued e uid (retryAttempts (bsq w))) batch))
     (map (fun it => ErrProcessing (operation it))
          (filter (fun it => negb (builds e uid it)) batch))).
Proof.
  induction batch as [|it rest IH]; intros ops w; simpl.
  - rewrite app_nil_r, grown_nil. reflexivity.
  - unfold requeued at 1 3. destruct (builds e uid it) eqn:Eb; simpl.
    + rewrite IH. unfold writes_of at 2. simpl. fold (writes_of uid).
      destruct (write_of uid it); simpl; rewrite <- ?app_assoc; reflexivity.
    + destruct (attempts it <? retryAttempts (bsq w)) eqn:Ea; simpl;
        rewrite ?push_grown, log_grown, ?grown_grown, IH, grown_grown; simpl;
        reflexivity.
Qed.

Lemma writes_of_app uid a b :
  writes_of uid (a ++ b) = writes_of uid a ++ writes_of uid b.
Proof. unfold writes_of. apply flat_map_app. Qed.

Lemma filter_all {A} (f : A -> bool) l :
  (forall x, f x = true) -> filter f l = l.
Proof.
  intros H. induction l as [|x l IH]; simpl; [reflexivity|].
  rewrite H, IH. reflexivity.
Qed.

Lemma filter_none {A} (f : A -> bool) l :
  (forall x, f x = false) -> filter f l = [].
Proof.
  intros H. induction l as [|x l IH]; simpl; [reflexivity|].
  rewrite H, IH. reflexivity.
Qed.

(** When Firestore accepts every item the loop only builds the batch. *)
Lemma forEachItem_accepting e uid batch ops w :
  accepting e ->
  forEachItem e uid batch ops w = (batch, ops ++ writes_of uid batch, w).
Proof.
  intros H. rewrite forEachItem_eq.
  assert (Hr : forall x, requeued e uid (retryAttempts (bsq w)) x = false).
  { intros x. unfold requeued. rewrite H. reflexivity. }
  rewrite (filter_all (builds e uid)) by apply H.
  rewrite (filter_none (requeued e uid _)) by apply Hr.
  rewrite (filter_none (fun it => negb (builds e uid it)))
    by (intros x; rewrite H; reflexivity).
  simpl. rewrite grown_nil. f_equal. f_equal.
  rewrite <- (map_id batch) at 2. apply map_ext. intros x. rewrite Hr. reflexivity.
Qed.

(** ** One batch *)

Lemma processBatch_no_session e batch w :
  no_session w -> processBatch e batch w = (push batch w, AwaitReturn).
Proof.
  unfold no_session, processBatch. intros [H | H]; rewrite H.
  - destruct (firebaseDB w); reflexivity.
  - reflexivity.
Qed.

Lemma processBatch_session e batch w uid :
  session w uid ->
  processBatch e batch w =
  (let '(batch', ops, w1) := forEachItem e uid batch [] w in
   if (0 <? List.length ops)%nat
   then (request w1, AwaitCommit batch' ops)
   else (w1, AwaitReturn)).
Proof. unfold session, processBatch. intros [-> ->]. reflexivity. Qed.

(** C4, as the code has it.  When the user or the Firestore handle is absent,
    [processBatch] appends the whole batch, every item as it was, to the tail
    of the queue, and sends nothing to Firestore; for a batch taken by the
    drain loop the queue becomes the items that were behind the batch followed
    by the batch. *)
Theorem C4_no_session_batch_to_tail : forall e batch w,
  no_session w ->
  let w' := fst (processBatch e batch w) in
  queue (bsq w') = queue (bsq w) ++ batch /\
  requests w' = requests w /\ remote w' = remote w /\
  console w' = console w /\ usage w' = usage w /\
  snd (processBatch e batch w) = AwaitReturn /\
  queue (bsq (fst (takeBatch e w))) =
    skipn (batchSize (bsq w)) (queue (bsq w)) ++
    firstn (batchSize (bsq w)) (queue (bsq w)) /\
  requests (fst (takeBatch e w)) = requests w.
Proof.
  intros e batch w H w'. subst w'.
  rewrite processBatch_no_session by assumption.
  unfold takeBatch. rewrite processBatch_no_session by exact H.
  simpl. repeat split; reflexivity.
Qed.

Lemma C4_no_session_batch_to_tail_witness :
  queue (bsq (fst (processBatch (envAt 5)
                     [newItem (envAt 1) "create" "invoices" noData None]
                     (initial 0)))) =
  [] ++ [newItem (envAt 1) "create" "invoices" noData None].
Proof.
  apply (C4_no_session_batch_to_tail (envAt 5)
           [newItem (envAt 1) "create" "invoices" noData None] (initial 0)).
  left. reflexivity.
Defined.

(** C4 as stated fails: 51 items are enqueued while nobody is logged in.  The
    drain loop takes the first 50 (the default batch size) and puts them back
    behind item 51, which is then at the head; nothing is sent. *)
Lemma C4_counterexample :
  let names := map (fun n => toString (Z.of_nat n)) (seq 1 51) in
  let tr := map (fun n => (envAt 1, Enqueue "create" "invoices" noData (Some n)))
                names
            ++ [(envAt 2, Resume 0 true); (envAt 1002, Resume 0 true)] in
  let w := run tr (initial 0) in
  map id (queue (bsq w)) = "51" :: firstn 50 names /\
  map id (queue (bsq w)) <> names /\
  map attempts (queue (bsq w)) = repeat 0 51 /\
  requests w = 0%nat.
Proof.
  vm_compute. repeat split; try reflexivity. discriminate.
Qed.

Lemma bump_same_identity x : same_identity x (bump x).
Proof. unfold same_identity. simpl. repeat split; reflexivity. Qed.

Lemma same_identity_refl x : same_identity x x.
Proof. unfold same_identity. repeat split; reflexivity. Qed.

(** The array that a drain loop suspended on a commit holds: the batch it
    took, with the attempts of the items that the for loop queued again
    already counted. *)
Lemma processBatch_suspended e batch w uid w1 batch' ops :
  session w uid ->
  processBatch e batch w = (w1, AwaitCommit batch' ops) ->
  batch' = map (fun it => if requeued e uid (retryAttempts (bsq w)) it
                          then bump it else it) batch /\
  ops = writes_of uid (filter (builds e uid) batch) /\
  ops <> [] /\
  w1 = request
         (grown w (map bump (filter (requeued e uid (retryAttempts (bsq w))) batch))
                  (map (fun it => ErrProcessing (operation it))
                       (filter (fun it => negb (builds e uid it)) batch))).
Proof.
  intros Hs H. rewrite (processBatch_session _ _ _ _ Hs), forEachItem_eq in H.
  simpl in H.
  destruct (writes_of uid (filter (builds e uid) batch)) as [|o os] eqn:Eo;
    simpl in H; [discriminate|].
  inversion H; subst. repeat split; try reflexivity. discriminate.
Qed.

Lemma resume_commit_failed e k batch ops w :
  nth_error (drains w) k = Some (AwaitCommit batch ops) ->
  queue (bsq (resume e k false w)) = queue (bsq w) ++ map bump batch /\
  remote (resume e k false w) = remote w /\
  requests (resume e k false w) = requests w.
Proof.
  intros H. unfold resume. rewrite H. unfold commitDone.
  destruct (0 <? _)%nat; simpl; repeat split; reflexivity.
Qed.

(** C5. When the commit of a batch fails, every item of the batch that the
    drain loop holds is appended to the tail of the queue, in order, as a copy
    with [attempts] one higher and everything else the same; nothing is
    committed.  No test on [attempts] or [retryAttempts] guards this: it holds
    whatever their values.  The batch held is the batch taken, and an item
    whose write was built is held unchanged. *)
Theorem C5_commit_failure_requeues_batch : forall e k batch ops w,
  nth_error (drains w) k = Some (AwaitCommit batch ops) ->
  let w' := resume e k false w in
  queue (bsq w') = queue (bsq w) ++ map bump batch /\
  (forall x, In x batch ->
     In (bump x) (queue (bsq w')) /\
     attempts (bump x) = attempts x + 1 /\ same_identity x (bump x)) /\
  remote w' = remote w /\
  (forall e0 uid w0 taken w1,
     session w0 uid ->
     processBatch e0 taken w0 = (w1, AwaitCommit batch ops) ->
     List.length batch = List.length taken /\
     forall i x, nth_error taken i = Some x -> builds e0 uid x = true ->
                 nth_error batch i = Some x).
Proof.
  intros e k batch ops w H w'. subst w'.
  destruct (resume_commit_failed e k batch ops w H) as (Hq & Hr & _).
  split; [exact Hq|]. split; [|split; [exact Hr|]].
  - intros x Hx. rewrite Hq. split; [|split].
    + apply in_or_app. right. apply in_map. exact Hx.
    + reflexivity.
    + apply bump_same_identity.
  - intros e0 uid w0 taken w1 Hs Hp.
    destruct (processBatch_suspended _ _ _ _ _ _ _ Hs Hp) as (Hb & _).
    subst batch. split; [apply length_map|].
    intros i x Hi Hbuild. rewrite nth_error_map, Hi. simpl.
    unfold requeued. rewrite Hbuild. reflexivity.
Qed.

Lemma C5_commit_failure_requeues_batch_witness :
  let it := mkItem "update" "invoices" noData "inv-1" 1 0 in
  let w := run [(envAt 1, Enqueue "update" "invoices" noData (Some "inv-1"))]
               (loggedIn "u1") in
  queue (bsq (resume (envAt 2) 0 false w)) = [] ++ map bump [it] /\
  nth_error [it] 0 = Some it.
Proof.
  intros it w.
  destruct (C5_commit_failure_requeues_batch (envAt 2) 0 [it]
              [OpSet "u1" "invoices" "inv-1" noData] w eq_refl)
    as (Hq & _ & _ & Hheld).
  split; [exact Hq|].
  apply (proj2 (Hheld (envAt 1) "u1" (loggedIn "u1") [it]
                  (request (loggedIn "u1")) (conj eq_refl eq_refl) eq_refl)
           0%nat it);
    reflexivity.
Defined.

(** C6. Whatever [processBatch] puts back in the queue keeps its id.  The
    items it appends before the commit (the whole batch when there is no
    session, the items whose construction failed otherwise) each differ from
    an item of the batch at most in [attempts]; and when the commit fails the
    items appended are the batch again, position by position, with the same
    ids, operations, collections, data and timestamps. *)
Theorem C6_id_stable_across_retries : forall e e' batch w,
  let w1 := fst (processBatch e batch w) in
  (exists r, queue (bsq w1) = queue (bsq w) ++ r /\
             forall y, In y r -> exists x, In x batch /\ same_identity x y) /\
  (forall batch' ops,
     snd (processBatch e batch w) = AwaitCommit batch' ops ->
     let w2 := commitDone e' false batch' ops w1 in
     exists r, queue (bsq w2) = queue (bsq w1) ++ r /\
               map id r = map id batch /\
               Forall2 same_identity batch r).
Proof.
  intros e e' batch w w1. subst w1. unfold processBatch.
  destruct (firebaseDB w) eqn:Edb; [destruct (currentUser w) as [uid|] eqn:Eu|].
  - rewrite forEachItem_eq.
    set (b' := map _ batch). set (o := [] ++ _). set (g := grown _ _ _).
    assert (Hb' : Forall2 same_identity batch b').
    { subst b'. clear. induction batch as [|x l IH]; simpl; constructor; auto.
      destruct (requeued _ _ _ x);
        auto using bump_same_identity, same_identity_refl. }
    assert (Hq : forall v, queue (bsq v) = queue (bsq g) ->
                 exists r, queue (bsq v) = queue (bsq w) ++ r /\
                   forall y, In y r -> exists x, In x batch /\ same_identity x y).
    { intros v ->. subst g. simpl. eexists. split; [reflexivity|].
      intros y Hy. apply in_map_iff in Hy. destruct Hy as (x & <- & Hx).
      apply filter_In in Hx. exists x. split; [tauto|apply bump_same_identity]. }
    destruct (0 <? List.length o)%nat; cbn [fst snd];
      (split; [apply Hq; reflexivity|]).
    + intros batch' ops Heq. inversion Heq; subst batch' ops.
      exists (map bump b'). split; [reflexivity|]. split.
      * rewrite map_map. simpl. subst b'. rewrite map_map. apply map_ext.
        intros x. destruct (requeued _ _ _ x); reflexivity.
      * clear -Hb'. induction Hb' as [|x y l l' Hxy _ IH]; simpl; constructor;
          [unfold same_identity in *; simpl; exact Hxy | exact IH].
    + intros ? ? Heq. discriminate.
  - simpl. split; [|intros ? ? Heq; discriminate].
    exists batch. split; [reflexivity|]. eauto using same_identity_refl.
  - simpl. split; [|intros ? ? Heq; discriminate].
    exists batch. split; [reflexivity|]. eauto using same_identity_refl.
Qed.

Lemma C6_id_stable_across_retries_witness :
  let it := mkItem "update" "invoices" noData "inv-1" 1 0 in
  let w1 := fst (processBatch (envAt 1) [it] (loggedIn "u1")) in
  exists r,
    queue (bsq (commitDone (envAt 2) false [it]
                  [OpSet "u1" "invoices" "inv-1" noData] w1)) =
      queue (bsq w1) ++ r /\
    map id r = ["inv-1"].
Proof.
  intros it w1.
  destruct (C6_id_stable_across_retries (envAt 1) (envAt 2) [it] (loggedIn "u1"))
    as [_ H].
  destruct (H [it] [OpSet "u1" "invoices" "inv-1" noData] eq_refl)
    as (r & Hq & Hid & _).
  exists r. split; [exact Hq | exact Hid].
Defined.

(** ** Immediate sync *)

Lemma write_of_valid uid it :
  valid_operation (operation it) -> exists o, write_of uid it = Some o.
Proof.
  unfold valid_operation, write_of. intros [H | [H | H]]; rewrite H; simpl; eauto.
Qed.

(** C8. Without a session [immediateSync] rejects with the session error
    and changes nothing: the queue is untouched and nothing is sent.  With a
    session, for one of the three operations on a reference that Firestore
    accepts, it sends exactly one write or delete; when that succeeds the
    promise resolves, the write is the only one added to the store, the
    queue is untouched and the tracker has recorded one write (writes is one
    more than after the reset check, so one more than before when no reset
    was due); when it fails the error is rethrown and the tracker is left as
    it was. *)
Theorem C8_immediateSync : forall e coll d op w,
  (no_session w ->
   forall ok, immediateSync e ok coll d op w = (RejectedNoSession, w)) /\
  (forall uid,
     session w uid -> valid_operation op ->
     let it := mkItem op coll d (orElse (data_id d) (toString (now e))) (now e) 0 in
     builds e uid it = true ->
     exists o, write_of uid it = Some o /\
       (let r := immediateSync e true coll d op w in
        fst r = Resolved true /\
        remote (snd r) = remote w ++ [o] /\
        requests (snd r) = S (requests w) /\
        bsq (snd r) = bsq w /\ drains (snd r) = drains w /\
        usage (snd r) = trackFirestoreWrite 1 (now e) (usage w) /\
        writes (firestoreStats (usage (snd r))) =
          writes (firestoreStats
                    (checkAndAutoResetFirestoreStats (now e) (usage w))) + 1 /\
        (now e - lastReset (firestoreStats (usage w)) < 24 * 60 * 60 * 1000 ->
         writes (firestoreStats (usage (snd r))) =
           writes (firestoreStats (usage w)) + 1)) /\
       (let r := immediateSync e false coll d op w in
        fst r = RejectedAdapter /\
        remote (snd r) = remote w /\
        requests (snd r) = S (requests w) /\
        bsq (snd r) = bsq w /\ drains (snd r) = drains w /\
        usage (snd r) = usage w)).
Proof.
  intros e coll d op w. split.
  - intros H ok. unfold immediateSync.
    destruct H as [H | H]; rewrite H; [reflexivity|].
    destruct (currentUser w); reflexivity.
  - intros uid [Hu Hdb] Hop it Hb.
    destruct (write_of_valid uid it Hop) as [o Ho].
    exists o. split; [exact Ho|].
    unfold immediateSync. rewrite Hu, Hdb. fold it. rewrite Hb, Ho. simpl.
    repeat split.
    + rewrite trackFirestoreWrite_stats. reflexivity.
    + intros Hlt. rewrite trackFirestoreWrite_stats.
      rewrite checkAndAutoReset_not_due by assumption. reflexivity.
Qed.

Lemma C8_immediateSync_witness :
  immediateSync (envAt 7) true "invoices" (mkData None [("amount", "50")])
                "delete" (initial 0) = (RejectedNoSession, initial 0) /\
  remote (snd (immediateSync (envAt 7) true "invoices"
                 (mkData None [("amount", "50")]) "delete" (loggedIn "u1"))) =
    [OpDelete "u1" "invoices" "7"].
Proof.
  split.
  - apply (proj1 (C8_immediateSync (envAt 7) "invoices"
                    (mkData None [("amount", "50")]) "delete" (initial 0))).
    left. reflexivity.
  - destruct (proj2 (C8_immediateSync (envAt 7) "invoices"
                       (mkData None [("amount", "50")]) "delete" (loggedIn "u1"))
                "u1" (conj eq_refl eq_refl) (or_intror (or_intror eq_refl))
                eq_refl) as (o & Ho & (_ & Hr & _) & _).
    rewrite Hr. inversion Ho. reflexivity.
Defined.

(** ** An item that Firestore keeps rejecting *)

Lemma firstn_single {A} n (x : A) : (0 < n)%nat -> firstn n [x] = [x].
Proof. destruct n; [lia|]. intros _. simpl. rewrite firstn_nil. reflexivity. Qed.

Lemma skipn_single {A} n (x : A) : (0 < n)%nat -> skipn n [x] = [].
Proof. destruct n; [lia|]. intros _. simpl. apply skipn_nil. Qed.


Lemma drainAll_done e fuel w : drains w = [] -> drainAll fuel e w = Some w.
Proof. intros H. destruct fuel; simpl; rewrite H; reflexivity. Qed.

Lemma drainAll_step e fuel w :
  drains w <> [] -> drainAll (S fuel) e w = drainAll fuel e (resume e 0 true w).
Proof. intros H. simpl. destruct (drains w); [congruence|reflexivity]. Qed.

Lemma resume_sleep e k ok w :
  nth_error (drains w) k = Some AwaitSleep ->
  resume e k ok w =
  if (0 <? List.length (queue (bsq w)))%nat
  then suspend k (snd (takeBatch e w)) (fst (takeBatch e w))
  else finish k w.
Proof.
  intros H. unfold resume. rewrite H.
  destruct (takeBatch e w). reflexivity.
Qed.

Lemma resume_return e k ok w :
  nth_error (drains w) k = Some AwaitReturn ->
  resume e k ok w =
  if (0 <? List.length (queue (bsq w)))%nat
  then suspend k AwaitSleep w else finish k w.
Proof. intros H. unfold resume. rewrite H. reflexivity. Qed.

Lemma resume_commit e k ok batch ops w :
  nth_error (drains w) k = Some (AwaitCommit batch ops) ->
  resume e k ok w =
  if (0 <? List.length (queue (bsq (commitDone e ok batch ops w))))%nat
  then suspend k AwaitSleep (commitDone e ok batch ops w)
  else finish k (commitDone e ok batch ops w).
Proof. intros H. unfold resume. rewrite H. reflexivity. Qed.

Lemma resume_none e k ok w :
  nth_error (drains w) k = None -> resume e k ok w = w.
Proof. intros H. unfold resume. rewrite H. reflexivity. Qed.


Section Rejected.
Variables (e : Env) (uid : string) (it0 : QueueItem).
Hypothesis rejects :
  forall it, same_identity it0 it -> builds e uid it = false.

End Rejected.




(** ** The single drain loop *)

(** What [processBatch] leaves alone: everything but the queue, the console
    and the request count. *)
Lemma processBatch_frame e batch w :
  let w' := fst (processBatch e batch w) in
  drains w' = drains w /\ processing (bsq w') = processing (bsq w) /\
  batchSize (bsq w') = batchSize (bsq w) /\
  retryAttempts (bsq w') = retryAttempts (bsq w) /\
  currentUser w' = currentUser w /\ firebaseDB w' = firebaseDB w /\
  remote w' = remote w /\ usage w' = usage w.
Proof.
  unfold processBatch.
  destruct (firebaseDB w) eqn:Edb; [destruct (currentUser w) eqn:Eu|];
    try (simpl; rewrite ?Edb, ?Eu; repeat split; reflexivity).
  rewrite forEachItem_eq. destruct (0 <? _)%nat; simpl;
    rewrite ?Edb, ?Eu; repeat split; reflexivity.
Qed.

Lemma takeBatch_frame e w :
  let w' := fst (takeBatch e w) in
  drains w' = drains w /\ processing (bsq w') = processing (bsq w) /\
  batchSize (bsq w') = batchSize (bsq w) /\
  retryAttempts (bsq w') = retryAttempts (bsq w) /\
  currentUser w' = currentUser w /\ firebaseDB w' = firebaseDB w /\
  remote w' = remote w /\ usage w' = usage w.
Proof.
  unfold takeBatch.
  exact (processBatch_frame e _
           (set_queue (skipn (batchSize (bsq w)) (queue (bsq w))) w)).
Qed.

Lemma commitDone_frame e ok batch ops w :
  drains (commitDone e ok batch ops w) = drains w /\
  processing (bsq (commitDone e ok batch ops w)) = processing (bsq w).
Proof. unfold commitDone. destruct ok; split; reflexivity. Qed.

(** [processQueue] does nothing while the flag is set (firestore.js:46). *)
Lemma processQueue_while_processing e w :
  processing (bsq w) = true -> processQueue e w = w.
Proof. intros H. unfold processQueue. rewrite H. reflexivity. Qed.

(** [enqueue] only appends while the flag is set (firestore.js:37). *)
Lemma enqueue_while_processing e op coll d i w :
  processing (bsq w) = true ->
  enqueue e op coll d i w = push [newItem e op coll d i] w.
Proof. intros H. unfold enqueue. simpl. rewrite H. reflexivity. Qed.

Lemma processQueue_single e w : single_drain w -> single_drain (processQueue e w).
Proof.
  intros H. pose proof H as [Hlen Hflag]. unfold processQueue.
  destruct (processing (bsq w)) eqn:Ep; simpl; [exact H|].
  destruct (_ =? 0)%nat; [exact H|].
  assert (Hd : drains w = []).
  { destruct (drains w); [reflexivity|].
    assert (false = true) by (apply Hflag; discriminate). discriminate. }
  destruct (takeBatch_frame e (set_processing true w)) as (Hd' & Hp' & _).
  destruct (takeBatch e (set_processing true w)) as [w1 p]. simpl in *.
  unfold single_drain. simpl. rewrite Hd', Hd, Hp'. simpl.
  split; [lia|]. split; [discriminate|reflexivity].
Qed.

Lemma enqueue_single e op coll d i w :
  single_drain w -> single_drain (enqueue e op coll d i w).
Proof.
  intros H. unfold enqueue.
  assert (H1 : single_drain (push [newItem e op coll d i] w)) by exact H.
  destruct (negb _); [apply processQueue_single|]; exact H1.
Qed.

Lemma suspend_single p w :
  single_drain w -> drains w <> [] -> single_drain (suspend 0 p w).
Proof.
  intros [Hlen Hflag] Hne. unfold single_drain, suspend. simpl.
  destruct (drains w) as [|x [|y l]]; simpl in *; try congruence; try lia.
  split; [lia|]. rewrite Hflag. split; discriminate.
Qed.

Lemma finish_single w :
  single_drain w -> single_drain (finish 0 w).
Proof.
  intros [Hlen Hflag]. unfold single_drain, finish. simpl.
  destruct (drains w) as [|x [|y l]]; simpl in *; try lia.
  - split; [lia|]. split; [discriminate|congruence].
  - split; [lia|]. split; [discriminate|congruence].
Qed.

Lemma resume_single e k ok w : single_drain w -> single_drain (resume e k ok w).
Proof.
  intros H. destruct (nth_error (drains w) k) as [p|] eqn:En;
    [|rewrite resume_none; assumption].
  assert (k = 0%nat) as ->.
  { destruct H as [Hlen _].
    assert (k < List.length (drains w))%nat
      by (apply nth_error_Some; rewrite En; discriminate).
    lia. }
  assert (Hne : drains w <> []) by (intros E; rewrite E in En; discriminate).
  destruct p as [batch ops| |].
  - rewrite (resume_commit _ _ _ _ _ _ En).
    assert (H1 : single_drain (commitDone e ok batch ops w)).
    { destruct (commitDone_frame e ok batch ops w) as [Hd Hp].
      unfold single_drain. rewrite Hd, Hp. exact H. }
    assert (Hne1 : drains (commitDone e ok batch ops w) <> [])
      by (rewrite (proj1 (commitDone_frame e ok batch ops w)); exact Hne).
    destruct (0 <? _)%nat; [apply suspend_single|apply finish_single]; assumption.
  - rewrite (resume_return _ _ _ _ En).
    destruct (0 <? _)%nat; [apply suspend_single|apply finish_single]; assumption.
  - rewrite (resume_sleep _ _ _ _ En).
    destruct (0 <? _)%nat; [|apply finish_single; assumption].
    destruct (takeBatch_frame e w) as (Hd & Hp & _).
    apply suspend_single; [|rewrite Hd; exact Hne].
    unfold single_drain. rewrite Hd, Hp. exact H.
Qed.

(** As long as [clear] is not called, there is at most one drain loop and the
    flag is set exactly while it exists, whatever is enqueued, however the
    session changes and however the commits end. *)
Lemma single_drain_without_clear : forall tr w,
  single_drain w ->
  forallb (fun x => negb (is_clear (snd x))) tr = true ->
  single_drain (run tr w).
Proof.
  induction tr as [|[e ev] tr IH]; intros w H Hnc; [exact H|].
  simpl in Hnc. apply andb_prop in Hnc. destruct Hnc as [Hev Htr].
  simpl. apply IH; [|exact Htr].
  destruct ev; simpl in *; try discriminate.
  - apply enqueue_single, H.
  - apply processQueue_single, H.
  - unfold queueBackgroundSync.
    destruct (currentUser w); [destruct (firebaseDB w)|]; try exact H.
    assert (H1 := enqueue_single e op coll d
                    (Some (orElse (data_id d) (generateId e))) w H).
    exact H1.
  - exact H.
  - apply resume_single, H.
Qed.

(** C2 at its failing input.  A user is logged in; [enqueue] starts a drain
    loop, which waits for its commit; [clear] resets the flag while that loop
    is still suspended.  A second [enqueue] then starts a second loop: two
    drain loops are active.  And if the first commit fails instead, the item
    is back in the queue, and a call of [processQueue] while the first loop
    sleeps takes it: the queue length goes from 1 to 0. *)
Theorem C2_clear_allows_second_drain :
  let a := Enqueue "create" "invoices" noData (Some "a") in
  let b := Enqueue "create" "invoices" noData (Some "b") in
  let w1 := run [(envAt 1, a); (envAt 2, Clear)] (loggedIn "u1") in
  let w2 := run [(envAt 1, a); (envAt 2, Clear); (envAt 3, Resume 0 false)]
                (loggedIn "u1") in
  List.length (drains w1) = 1%nat /\
  processing (bsq w1) = false /\
  List.length (drains (step w1 (envAt 3, b))) = 2%nat /\
  drains w2 = [AwaitSleep] /\
  List.length (queue (bsq w2)) = 1%nat /\
  List.length (queue (bsq (step w2 (envAt 4, ProcessQueue)))) = 0%nat /\
  List.length (drains (step w2 (envAt 4, ProcessQueue))) = 2%nat.
Proof. vm_compute. repeat split; reflexivity. Qed.

(** ** A run in which nothing fails *)

Lemma takeBatch_accepting e uid w :
  session w uid -> accepting e ->
  takeBatch e w =
  let b := firstn (batchSize (bsq w)) (queue (bsq w)) in
  let w' := set_queue (skipn (batchSize (bsq w)) (queue (bsq w))) w in
  if (0 <? List.length (writes_of uid b))%nat
  then (request w', AwaitCommit b (writes_of uid b))
  else (w', AwaitReturn).
Proof.
  intros Hs Ha. unfold takeBatch.
  rewrite (processBatch_session _ _ _ uid) by (destruct Hs; split; assumption).
  rewrite forEachItem_accepting by assumption. reflexivity.
Qed.

Lemma takeBatch_accepting_ops e uid w :
  session w uid -> accepting e ->
  pending_ops (snd (takeBatch e w)) =
    writes_of uid (firstn (batchSize (bsq w)) (queue (bsq w))) /\
  queue (bsq (fst (takeBatch e w))) = skipn (batchSize (bsq w)) (queue (bsq w)).
Proof.
  intros Hs Ha. rewrite (takeBatch_accepting e uid) by assumption. simpl.
  destruct (writes_of uid _) as [|o os]; simpl; split; reflexivity.
Qed.

Lemma writes_of_valid_length uid q :
  Forall (fun it => valid_operation (operation it)) q ->
  List.length (writes_of uid q) = List.length q.
Proof.
  induction 1 as [|it q Hv _ IH]; simpl; [reflexivity|].
  destruct (write_of_valid uid it Hv) as [o ->]. simpl. rewrite IH. reflexivity.
Qed.

Lemma writes_of_valid_Forall2 uid q :
  Forall (fun it => valid_operation (operation it)) q ->
  Forall2 (fun it o => write_of uid it = Some o) q (writes_of uid q).
Proof.
  induction 1 as [|it q Hv _ IH]; simpl; [constructor|].
  destruct (write_of_valid uid it Hv) as [o Ho]. rewrite Ho. simpl.
  constructor; assumption.
Qed.

Lemma Forall_skipn_valid {A} (P : A -> Prop) n l :
  Forall P l -> Forall P (skipn n l).
Proof.
  intros H. rewrite <- (firstn_skipn n l) in H.
  apply Forall_app in H. tauto.
Qed.

Lemma single_drain_cases w :
  single_drain w ->
  (drains w = [] /\ processing (bsq w) = false) \/
  (exists p, drains w = [p] /\ processing (bsq w) = true).
Proof.
  intros [Hlen Hflag]. destruct (drains w) as [|p [|p' l]]; simpl in *; [| |lia].
  - left. split; [reflexivity|].
    destruct (processing (bsq w)); [|reflexivity].
    exfalso. apply (proj1 Hflag); reflexivity.
  - right. exists p. split; [reflexivity|]. apply Hflag. discriminate.
Qed.

Section Quiet.
Variables (uid : string) (w0 : World).

(** The drain loop takes its next batch; [p] is where it then waits. *)
Lemma conserved_take e items v done :
  accepting e -> session v uid ->
  Forall (fun it => valid_operation (operation it)) (queue (bsq v)) ->
  batchSize (bsq v) = batchSize (bsq w0) ->
  remote v = remote w0 ++ done ->
  done ++ writes_of uid (queue (bsq v)) = writes_of uid items ->
  forall v', (drains v' = [snd (takeBatch e v)] /\
              bsq v' = bsq (fst (takeBatch e v)) /\
              currentUser v' = currentUser v /\ firebaseDB v' = firebaseDB v /\
              remote v' = remote v) ->
             processing (bsq v) = true ->
  conserved uid w0 items v'.
Proof.
  intros Ha Hs Hv Hb Hr Hc v' (Hd' & Hq' & Hu' & Hdb' & Hr') Hp.
  destruct (takeBatch_accepting_ops e uid v Hs Ha) as [Hops Hq].
  destruct (takeBatch_frame e v) as (_ & Hp2 & Hb2 & _).
  unfold conserved.
  split; [destruct Hs; split; congruence|].
  split.
  { unfold single_drain. rewrite Hd', Hq', Hp2, Hp. simpl.
    split; [lia|]. split; [discriminate|reflexivity]. }
  split; [rewrite Hd'; discriminate|].
  rewrite Hq', Hq, Hb2.
  split; [apply Forall_skipn_valid, Hv|]. split; [exact Hb|].
  exists done. split; [congruence|].
  unfold inflight. rewrite Hd'. simpl. rewrite app_nil_r, Hops.
  rewrite <- writes_of_app, firstn_skipn. exact Hc.
Qed.

Lemma conserved_step items w e ev :
  conserved uid w0 items w -> quiet (e, ev) ->
  conserved uid w0 (items ++ enqueued [(e, ev)]) (step w (e, ev)).
Proof.
  intros (Hs & Hsd & Hidle & Hv & Hb & done & Hr & Hc) [Ha Hev].
  simpl in Ha, Hev.
  destruct ev as [op coll d i| | | | |k ok]; simpl in Hev; try contradiction;
    unfold enqueued; simpl flat_map; rewrite ?app_nil_r.
  - (* enqueue *)
    set (it := newItem e op coll d i).
    assert (Hv1 : Forall (fun it => valid_operation (operation it))
                         (queue (bsq w) ++ [it])).
    { apply Forall_app. split; [exact Hv|]. constructor; [exact Hev|constructor]. }
    destruct (single_drain_cases w Hsd) as [[Hd Hp] | (p & Hd & Hp)].
    + (* idle: the call starts the drain loop *)
      pose proof (Hidle Hd) as Hq.
      simpl. unfold enqueue. fold it. simpl processing. rewrite Hp. simpl negb.
      cbv iota. unfold processQueue. simpl processing. rewrite Hp.
      simpl queue. rewrite Hq. simpl.
      fold (set_processing true (push [it] w)).
      set (v := set_processing true (push [it] w)).
      destruct (takeBatch_frame e v) as (Hd2 & _ & _ & _ & Hu2 & Hdb2 & Hr2 & _).
      destruct (takeBatch e v) as [w2 p] eqn:Et.
      apply (conserved_take e _ v done); try assumption.
      * subst v. simpl. rewrite Hq. simpl.
        unfold inflight in Hc. rewrite Hd, Hq in Hc. simpl in Hc.
        rewrite app_nil_r in Hc.
        rewrite (writes_of_app uid items), <- Hc. reflexivity.
      * rewrite Et. simpl in *. rewrite Hd2. subst v. simpl. rewrite Hd.
        repeat split; try reflexivity; assumption.
      * reflexivity.
    + (* a drain loop exists: the item waits in the queue *)
      simpl. rewrite enqueue_while_processing by assumption. fold it.
      unfold conserved.
      split; [exact Hs|]. split; [exact Hsd|].
      split; [simpl; rewrite Hd; discriminate|].
      split; [exact Hv1|]. split; [exact Hb|].
      exists done. split; [exact Hr|].
      simpl. unfold inflight in *. simpl drains.
      rewrite !writes_of_app, <- Hc, <- !app_assoc. reflexivity.
  - (* processQueue: a no-op in both cases *)
    assert (E : processQueue e w = w).
    { destruct (single_drain_cases w Hsd) as [[Hd Hp] | (p & Hd & Hp)].
      - unfold processQueue. rewrite (Hidle Hd), Hp. reflexivity.
      - apply processQueue_while_processing, Hp. }
    simpl. rewrite E.
    exact (conj Hs (conj Hsd (conj Hidle (conj Hv (conj Hb
             (ex_intro _ done (conj Hr Hc))))))).
  - (* a drain loop resumes, its commit having succeeded *)
    subst ok. simpl.
    destruct (nth_error (drains w) k) as [p|] eqn:En.
    2:{ rewrite resume_none by assumption.
        exact (conj Hs (conj Hsd (conj Hidle (conj Hv (conj Hb
                 (ex_intro _ done (conj Hr Hc))))))). }
    destruct (single_drain_cases w Hsd) as [[Hd Hp] | (p' & Hd & Hp)];
      [rewrite Hd in En; destruct k; discriminate|].
    assert (k = 0%nat) as ->.
    { rewrite Hd in En. destruct k as [|[|k]]; [reflexivity|discriminate..]. }
    assert (p' = p) as -> by (rewrite Hd in En; inversion En; reflexivity).
    unfold inflight in Hc. rewrite Hd in Hc. simpl in Hc. rewrite app_nil_r in Hc.
    assert (Hend : forall v dn,
               bsq v = bsq w -> currentUser v = currentUser w ->
               firebaseDB v = firebaseDB w -> drains v = drains w ->
               remote v = remote w0 ++ dn ->
               dn ++ writes_of uid (queue (bsq w)) = writes_of uid items ->
               conserved uid w0 items
                 (if (0 <? List.length (queue (bsq v)))%nat
                  then suspend 0 AwaitSleep v else finish 0 v)).
    { intros v dn Hbq Hcu Hdbv Hdv Hrv Hcv. rewrite Hbq.
      assert (Hsv : session v uid) by (destruct Hs; split; congruence).
      destruct (queue (bsq w)) as [|x q] eqn:Eq; simpl;
        unfold conserved.
      - split; [exact Hsv|].
        split.
        { unfold single_drain. simpl. rewrite Hdv, Hd. simpl.
          split; [lia|]. split; [discriminate|congruence]. }
        split; [intros _; simpl; rewrite Hbq; exact Eq|].
        split; [simpl; rewrite Hbq, Eq; constructor|].
        split; [simpl; rewrite Hbq; exact Hb|].
        exists dn. split; [exact Hrv|].
        unfold inflight. simpl. rewrite Hdv, Hd, Hbq, Eq. exact Hcv.
      - split; [exact Hsv|].
        split.
        { unfold single_drain. simpl. rewrite Hdv, Hd, Hbq, Hp. simpl.
          split; [lia|]. split; [discriminate|reflexivity]. }
        split; [simpl; rewrite Hdv, Hd; discriminate|].
        split; [simpl; rewrite Hbq, Eq; exact Hv|].
        split; [simpl; rewrite Hbq; exact Hb|].
        exists dn. split; [exact Hrv|].
        unfold inflight. simpl. rewrite Hdv, Hd, Hbq, Eq. exact Hcv. }
    destruct p as [batch ops| |].
    + rewrite (resume_commit _ _ _ _ _ _ En).
      apply (Hend (commitDone e true batch ops w) (done ++ ops));
        try reflexivity.
      * simpl. rewrite Hr, app_assoc. reflexivity.
      * simpl in Hc. rewrite <- app_assoc. exact Hc.
    + rewrite (resume_return _ _ _ _ En).
      apply (Hend w done); try reflexivity; assumption.
    + rewrite (resume_sleep _ _ _ _ En).
      destruct (queue (bsq w)) as [|x q] eqn:Eq.
      * simpl. specialize (Hend w done). rewrite Eq in Hend. simpl in Hend.
        apply Hend; try reflexivity; assumption.
      * simpl List.length. simpl Nat.ltb.
        destruct (takeBatch_frame e w) as (Hd2 & _ & _ & _ & Hu2 & Hdb2 & Hr2 & _).
        apply (conserved_take e _ w done); try assumption.
        -- rewrite Eq. exact Hv.
        -- rewrite Eq. exact Hc.
        -- unfold suspend. simpl. rewrite Hd2, Hd. simpl.
           repeat split; try reflexivity; assumption.
Qed.

Lemma conserved_run : forall tr items w,
  conserved uid w0 items w -> Forall quiet tr ->
  conserved uid w0 (items ++ enqueued tr) (run tr w).
Proof.
  induction tr as [|[e ev] tr IH]; intros items w H Hq.
  - simpl. rewrite app_nil_r. exact H.
  - inversion Hq as [|? ? Hx Htr]; subst.
    replace (enqueued ((e, ev) :: tr)) with (enqueued [(e, ev)] ++ enqueued tr)
      by (unfold enqueued; simpl; rewrite app_nil_r; reflexivity).
    rewrite app_assoc.
    change (run ((e, ev) :: tr) w) with (run tr (step w (e, ev))).
    apply IH; [|exact Htr]. apply conserved_step; assumption.
Qed.
End Quiet.

(** ** The drain loop ends *)

Lemma writes_of_length_le uid q :
  (List.length (writes_of uid q) <= List.length q)%nat.
Proof.
  induction q as [|it q IH]; simpl; [lia|].
  rewrite length_app. destruct (write_of uid it); simpl; lia.
Qed.

Lemma enqueued_valid tr :
  Forall quiet tr ->
  Forall (fun it => valid_operation (operation it)) (enqueued tr).
Proof.
  induction 1 as [|[e ev] tr [_ Hev] _ IH]; simpl; [constructor|].
  destruct ev; simpl in *; try exact IH. constructor; assumption.
Qed.

Lemma resume_decreases uid e w :
  session w uid -> accepting e -> single_drain w ->
  (0 < batchSize (bsq w))%nat -> drains w <> [] ->
  (resumptions (resume e 0 true w) < resumptions w)%nat.
Proof.
  intros Hs Ha Hsd Hb Hne.
  destruct (single_drain_cases w Hsd) as [[Hd _] | (p & Hd & Hp)];
    [congruence|].
  assert (En : nth_error (drains w) 0 = Some p) by (rewrite Hd; reflexivity).
  assert (Hend : forall v, queue (bsq v) = queue (bsq w) -> drains v = drains w ->
            p <> AwaitSleep ->
            (resumptions (if (0 <? List.length (queue (bsq v)))%nat
                          then suspend 0 AwaitSleep v else finish 0 v)
             < resumptions w)%nat).
  { intros v Hq Hdv Hnp. rewrite Hq. unfold resumptions at 2. rewrite Hd.
    destruct (queue (bsq w)) as [|x q]; simpl Nat.ltb; cbv iota.
    - unfold resumptions, finish. simpl. rewrite Hdv, Hd. simpl.
      destruct p; lia.
    - unfold resumptions, suspend. simpl. rewrite Hdv, Hd, Hq. simpl.
      destruct p; try congruence; simpl; lia. }
  destruct p as [batch ops| |].
  - rewrite (resume_commit _ _ _ _ _ _ En).
    apply Hend; [reflexivity|reflexivity|discriminate].
  - rewrite (resume_return _ _ _ _ En).
    apply Hend; [reflexivity|reflexivity|discriminate].
  - rewrite (resume_sleep _ _ _ _ En).
    unfold resumptions at 2. rewrite Hd.
    destruct (queue (bsq w)) as [|x q] eqn:Eq; simpl Nat.ltb; cbv iota.
    + unfold resumptions, finish. simpl. rewrite Hd. simpl. lia.
    + destruct (takeBatch_accepting_ops e uid w Hs Ha) as [_ Hq].
      destruct (takeBatch_frame e w) as (Hd2 & _).
      rewrite (takeBatch_accepting e uid w Hs Ha) in *. simpl in Hq, Hd2 |- *.
      assert (Hlen : (List.length (skipn (batchSize (bsq w)) (x :: q))
                      <= List.length q)%nat).
      { rewrite length_skipn. cbn [List.length]. lia. }
      rewrite Eq in *.
      destruct (0 <? _)%nat; unfold resumptions, suspend; simpl in *;
        rewrite Hd; simpl; lia.
Qed.

Lemma drainAll_ends uid w0 items e :
  accepting e -> (0 < batchSize (bsq w0))%nat ->
  forall fuel w,
    conserved uid w0 items w -> (resumptions w <= fuel)%nat ->
    exists w', drainAll fuel e w = Some w' /\
               conserved uid w0 items w' /\ drains w' = [].
Proof.
  intros Ha Hb0. induction fuel as [|fuel IH]; intros w Hc Hfuel.
  - exists w. destruct (drains w) as [|p l] eqn:Hd.
    + simpl. rewrite Hd. auto.
    + unfold resumptions in Hfuel. rewrite Hd in Hfuel. destruct p; lia.
  - destruct (drains w) as [|p l] eqn:Hd.
    + exists w. rewrite drainAll_done by assumption. auto.
    + rewrite drainAll_step by (rewrite Hd; discriminate).
      pose proof Hc as (Hs & Hsd & _ & _ & Hb & _).
      apply IH.
      * pose proof (conserved_step uid w0 items w e (Resume 0 true) Hc) as H.
        unfold enqueued in H. simpl in H. rewrite app_nil_r in H.
        apply H. split; [exact Ha|reflexivity].
      * assert (resumptions (resume e 0 true w) < resumptions w)%nat.
        { apply (resume_decreases uid); try assumption.
          - rewrite Hb. exact Hb0.
          - rewrite Hd. discriminate. }
        lia.
Qed.

(** C1. A user is logged in and the queue is idle.  In any run made of
    [enqueue] calls of create, update or delete items, calls of
    [processQueue] and resumptions of the drain loop, in which Firestore
    accepts every write and every commit succeeds, letting the drain loop run
    to its end does end it (enough resumptions are [2 N + 2] for [N] enqueued
    items), with the queue empty and the flag cleared; the writes committed
    are then exactly those of the enqueued items, one write per item and in
    the order of the [enqueue] calls: [N] writes, none missing, none twice. *)
Theorem C1_drain_commits_each_item_once : forall uid w0 tr e fuel,
  idle w0 -> session w0 uid -> (0 < batchSize (bsq w0))%nat ->
  Forall quiet tr -> accepting e ->
  (2 * List.length (enqueued tr) + 2 <= fuel)%nat ->
  exists w',
    drainAll fuel e (run tr w0) = Some w' /\
    queue (bsq w') = [] /\ processing (bsq w') = false /\ drains w' = [] /\
    remote w' = remote w0 ++ writes_of uid (enqueued tr) /\
    Forall2 (fun it o => write_of uid it = Some o)
            (enqueued tr) (writes_of uid (enqueued tr)) /\
    List.length (writes_of uid (enqueued tr)) = List.length (enqueued tr).
Proof.
  intros uid w0 tr e fuel (Hq0 & Hp0 & Hd0) Hs0 Hb0 Htr Ha Hfuel.
  assert (H0 : conserved uid w0 [] w0).
  { unfold conserved. split; [exact Hs0|]. split.
    { unfold single_drain. rewrite Hd0, Hp0. simpl.
      split; [lia|]. split; [discriminate|congruence]. }
    split; [intros _; exact Hq0|]. split; [rewrite Hq0; constructor|].
    split; [reflexivity|]. exists []. unfold inflight.
    rewrite Hd0, Hq0, app_nil_r. split; reflexivity. }
  pose proof (conserved_run uid w0 tr [] w0 H0 Htr) as Hc. simpl in Hc.
  pose proof (enqueued_valid tr Htr) as Hvalid.
  assert (Hres : (resumptions (run tr w0) <= fuel)%nat).
  { destruct Hc as (_ & _ & _ & Hv & _ & done & _ & Heq).
    apply (f_equal (@List.length _)) in Heq.
    rewrite !length_app, (writes_of_valid_length _ _ Hv),
      (writes_of_valid_length _ _ Hvalid) in Heq.
    unfold resumptions. destruct (drains (run tr w0)) as [|[] ?]; lia. }
  destruct (drainAll_ends uid w0 (enqueued tr) e Ha Hb0 fuel _ Hc Hres)
    as (w' & Hrun & Hc' & Hd').
  destruct Hc' as (_ & Hsd & Hidle & _ & _ & done & Hr & Heq).
  exists w'. split; [exact Hrun|]. split; [apply Hidle, Hd'|].
  split.
  { destruct (single_drain_cases w' Hsd) as [[_ Hp] | (p & Hd & _)];
      [exact Hp|congruence]. }
  split; [exact Hd'|]. split.
  { unfold inflight in Heq. rewrite Hd', (Hidle Hd') in Heq. simpl in Heq.
    rewrite app_nil_r in Heq. rewrite Hr, Heq. reflexivity. }
  split; [apply writes_of_valid_Forall2, Hvalid|].
  apply writes_of_valid_length, Hvalid.
Qed.

Lemma C1_drain_commits_each_item_once_witness :
  let tr := [(envAt 1, Enqueue "create" "invoices" noData (Some "inv-1"));
             (envAt 2, Enqueue "delete" "invoices" noData (Some "inv-0"));
             (envAt 3, Resume 0 true);
             (envAt 4, Enqueue "update" "customers" noData None)] in
  exists w',
    drainAll 8 (envAt 5) (run tr (loggedIn "u1")) = Some w' /\
    queue (bsq w') = [] /\
    remote w' = [OpSet "u1" "invoices" "inv-1" noData;
                 OpDelete "u1" "invoices" "inv-0";
                 OpSet "u1" "customers" "k3f9x" noData].
Proof.
  intro tr.
  destruct (C1_drain_commits_each_item_once "u1" (loggedIn "u1") tr (envAt 5) 8)
    as (w' & Hrun & Hq & _ & _ & Hr & _).
  - repeat split; reflexivity.
  - split; reflexivity.
  - simpl. lia.
  - subst tr.
    repeat (apply Forall_cons;
            [split; [intros ? ?; reflexivity
                    |simpl; unfold valid_operation; auto]|]).
    apply Forall_nil.
  - intros u it. reflexivity.
  - simpl. lia.
  - exists w'. split; [exact Hrun|]. split; [exact Hq|exact Hr].
Defined.

(** * More on the usage tracker *)

Lemma checkAndAutoReset_storage now u :
  localStorage (checkAndAutoResetFirestoreStats now u) =
    if Qle_bool (inject_Z 24) (hoursSinceReset now (firestoreStats u))
    then Some (mkStats 0 0 [] now)
    else localStorage u.
Proof.
  unfold checkAndAutoResetFirestoreStats.
  destruct (Qle_bool _ _); [|reflexivity].
  unfold updateFirestoreDisplay, updateFirestoreChart, saveFirestoreStats. simpl.
  destruct (firestoreUsageChart u); reflexivity.
Qed.

Lemma resetFirestoreStats_effect now u :
  firestoreStats (resetFirestoreStats now u) = mkStats 0 0 [] now /\
  localStorage (resetFirestoreStats now u) = localStorage u /\
  firestoreUsageChart (resetFirestoreStats now u) =
    option_map (fun _ => emptyChart) (firestoreUsageChart u).
Proof.
  unfold resetFirestoreStats, updateFirestoreDisplay, updateFirestoreChart. simpl.
  destruct (firestoreUsageChart u); simpl; repeat split; reflexivity.
Qed.

Lemma loadFirestoreStats_chart now u :
  firestoreUsageChart (loadFirestoreStats now u) = firestoreUsageChart u \/
  firestoreUsageChart (loadFirestoreStats now u) =
    option_map (fun _ => emptyChart) (firestoreUsageChart u).
Proof.
  unfold loadFirestoreStats. destruct (localStorage u); [|left; reflexivity].
  rewrite checkAndAutoReset_chart. destruct (Qle_bool _ _); auto.
Qed.

Lemma emptied_bounded u (c : option Chart) :
  firestoreUsageChart u = option_map (fun _ => emptyChart) c -> chart_bounded u.
Proof.
  unfold chart_bounded. intros ->. destruct c; simpl; auto.
  repeat split. lia.
Qed.

Lemma trackerStep_bounded u x : chart_bounded u -> chart_bounded (trackerStep u x).
Proof.
  intros Hb. destruct x as [now [n|n| | |canvas]]; unfold trackerStep; simpl.
  - unfold trackFirestoreRead.
    edestruct (record_call_effect now u) as (H & _); [exact Hb| | |exact H];
      reflexivity.
  - unfold trackFirestoreWrite.
    edestruct (record_call_effect now u) as (H & _); [exact Hb| | |exact H];
      reflexivity.
  - destruct (loadFirestoreStats_chart now u) as [H | H].
    + unfold chart_bounded in *. rewrite H. exact Hb.
    + eapply emptied_bounded, H.
  - eapply emptied_bounded. apply resetFirestoreStats_effect.
  - unfold openDataMenu. destruct (firestoreUsageChart u) eqn:E; [exact Hb|].
    destruct canvas; [|exact Hb].
    apply (emptied_bounded _ (Some emptyChart)). reflexivity.
Qed.

Lemma trackerStep_history u x : history_empty u -> history_empty (trackerStep u x).
Proof.
  intros [Hh Hs]. destruct x as [now [n|n| | |canvas]]; unfold trackerStep; simpl.
  - unfold history_empty, trackFirestoreRead.
    match goal with
    | |- context [updateFirestoreDisplay ?t ?v] =>
        destruct (updateFirestoreDisplay_stats t v) as [E1 E2]; rewrite E1, E2
    end.
    assert (Hc : history (firestoreStats (checkAndAutoResetFirestoreStats now u)) = [])
      by (rewrite checkAndAutoReset_history, Hh; destruct (Qle_bool _ _); reflexivity).
    simpl. split; [exact Hc|].
    intros s E. inversion E; subst. exact Hc.
  - unfold history_empty, trackFirestoreWrite.
    match goal with
    | |- context [updateFirestoreDisplay ?t ?v] =>
        destruct (updateFirestoreDisplay_stats t v) as [E1 E2]; rewrite E1, E2
    end.
    assert (Hc : history (firestoreStats (checkAndAutoResetFirestoreStats now u)) = [])
      by (rewrite checkAndAutoReset_history, Hh; destruct (Qle_bool _ _); reflexivity).
    simpl. split; [exact Hc|].
    intros s E. inversion E; subst. exact Hc.
  - unfold history_empty, loadFirestoreStats.
    destruct (localStorage u) as [s0|] eqn:E0.
    + rewrite checkAndAutoReset_history, checkAndAutoReset_storage. simpl.
      pose proof (Hs s0 eq_refl) as H0.
      destruct (Qle_bool _ _).
      * split; [reflexivity|]. intros s E. inversion E. reflexivity.
      * split; [destruct (lastReset s0 =? 0); exact H0|exact Hs].
    + simpl. split; [reflexivity|exact Hs].
  - destruct (resetFirestoreStats_effect now u) as (E1 & E2 & _).
    unfold history_empty. rewrite E1, E2. split; [reflexivity|exact Hs].
  - unfold openDataMenu. destruct (firestoreUsageChart u); [split; assumption|].
    destruct canvas; split; assumption.
Qed.

(** X1. Whatever calls the tracker receives after the module is loaded
    (record calls, reloads, manual resets, openings of the data menu, at any
    instants), the chart never holds more than ten points, its three arrays
    stay of equal length, and the history stays empty, in memory and in the
    stored entry. *)
Theorem tracker_keeps_chart_bounded_and_history_empty : forall t0 calls,
  chart_bounded (trackerRun calls (initialUsage t0)) /\
  history_empty (trackerRun calls (initialUsage t0)).
Proof.
  intros t0 calls.
  assert (H : chart_bounded (initialUsage t0) /\ history_empty (initialUsage t0)).
  { split; [exact I|]. split; [reflexivity|discriminate]. }
  revert H. generalize (initialUsage t0).
  induction calls as [|x calls IH]; intros u [Hb Hh]; [split; assumption|].
  simpl. apply IH. split; [apply trackerStep_bounded|apply trackerStep_history];
    assumption.
Qed.

(** X2. A page reload gets back what was saved: less than 24 hours after
    [lastReset] the loaded counters are the saved ones, whatever was in
    memory; from 24 hours on they are zero, with [lastReset] set to the
    instant of the load, and the stored entry is overwritten with that.
    With nothing stored the counters start at zero. *)
Theorem load_gives_back_saved_stats : forall now u v,
  localStorage v = localStorage (saveFirestoreStats u) ->
  lastReset (firestoreStats u) <> 0 ->
  (now - lastReset (firestoreStats u) < 24 * 60 * 60 * 1000 ->
   firestoreStats (loadFirestoreStats now v) = firestoreStats u /\
   localStorage (loadFirestoreStats now v) = Some (firestoreStats u)) /\
  (24 * 60 * 60 * 1000 <= now - lastReset (firestoreStats u) ->
   firestoreStats (loadFirestoreStats now v) = mkStats 0 0 [] now /\
   localStorage (loadFirestoreStats now v) = Some (mkStats 0 0 [] now)) /\
  (forall v0, localStorage v0 = None ->
     firestoreStats (loadFirestoreStats now v0) = mkStats 0 0 [] now).
Proof.
  intros now u v Hv Hl. simpl in Hv.
  assert (E : (lastReset (firestoreStats u) =? 0) = false)
    by (apply Z.eqb_neq, Hl).
  split; [|split].
  - intros Hlt. unfold loadFirestoreStats. rewrite Hv, E.
    rewrite checkAndAutoReset_not_due by exact Hlt. simpl. auto.
  - intros Hge. unfold loadFirestoreStats. rewrite Hv, E.
    rewrite checkAndAutoReset_due by exact Hge.
    rewrite checkAndAutoReset_storage. simpl.
    apply reset_due_iff in Hge. simpl in Hge. rewrite Hge. auto.
  - intros v0 H0. unfold loadFirestoreStats. rewrite H0. reflexivity.
Qed.

Lemma load_gives_back_saved_stats_witness :
  let u := trackFirestoreWrite 5 2000 (trackFirestoreRead 3 1000 (initialUsage 10)) in
  let v := mkUsage (mkStats 0 0 [] 4000) None (localStorage u) in
  firestoreStats (loadFirestoreStats 5000 v) = mkStats 3 5 [] 10 /\
  firestoreStats (loadFirestoreStats 90000000 v) = mkStats 0 0 [] 90000000.
Proof.
  intros u v.
  destruct (load_gives_back_saved_stats 5000 u v eq_refl) as (H1 & _).
  { simpl. lia. }
  destruct (load_gives_back_saved_stats 90000000 u v eq_refl) as (_ & H2 & _).
  { simpl. lia. }
  split.
  - apply H1. simpl. lia.
  - apply H2. simpl. lia.
Defined.

(** X3. A manual reset is not saved: [resetFirestoreStats] zeroes the
    counters in memory and empties the chart, but leaves the stored entry as
    it was, so a reload within 24 hours of the stored [lastReset] brings the
    counters from before the reset back. *)
Theorem manual_reset_is_not_persisted : forall now now' u s,
  localStorage u = Some s -> lastReset s <> 0 ->
  now' - lastReset s < 24 * 60 * 60 * 1000 ->
  firestoreStats (resetFirestoreStats now u) = mkStats 0 0 [] now /\
  localStorage (resetFirestoreStats now u) = Some s /\
  firestoreStats (loadFirestoreStats now' (resetFirestoreStats now u)) = s.
Proof.
  intros now now' u s Hs Hl Hlt.
  destruct (resetFirestoreStats_effect now u) as (E1 & E2 & _).
  rewrite E1, E2, Hs. split; [reflexivity|]. split; [reflexivity|].
  unfold loadFirestoreStats. rewrite E2, Hs.
  replace (lastReset s =? 0) with false by (symmetry; apply Z.eqb_neq, Hl).
  rewrite checkAndAutoReset_not_due by exact Hlt. reflexivity.
Qed.

Lemma manual_reset_is_not_persisted_witness :
  let u := trackFirestoreWrite 5 2000 (initialUsage 10) in
  firestoreStats (resetFirestoreStats 3000 u) = mkStats 0 0 [] 3000 /\
  firestoreStats (loadFirestoreStats 4000 (resetFirestoreStats 3000 u)) =
    mkStats 0 5 [] 10.
Proof.
  intro u.
  destruct (manual_reset_is_not_persisted 3000 4000 u (mkStats 0 5 [] 10) eq_refl)
    as (H1 & _ & H3).
  - simpl. lia.
  - simpl. lia.
  - split; [exact H1|exact H3].
Defined.




(** * More on the sync queue *)

(** ** Draining without a session *)

Lemma no_session_set_queue q w : no_session w -> no_session (set_queue q w).
Proof. intros H. exact H. Qed.

Lemma takeBatch_no_session e w :
  no_session w ->
  takeBatch e w =
  (set_queue (skipn (batchSize (bsq w)) (queue (bsq w)) ++
              firstn (batchSize (bsq w)) (queue (bsq w))) w,
   AwaitReturn).
Proof.
  intros H. unfold takeBatch.
  rewrite processBatch_no_session by exact H.
  destruct w as [[q p b t r] cu db us rm rq c d]. reflexivity.
Qed.

Lemma length_pos_ltb {A} (l : list A) :
  l <> [] -> (0 <? List.length l)%nat = true.
Proof. destruct l; [congruence|reflexivity]. Qed.

Lemma resume_spinning e w :
  spinning w ->
  spinning (resume e 0 true w) /\
  requests (resume e 0 true w) = requests w /\
  Permutation (queue (bsq (resume e 0 true w))) (queue (bsq w)).
Proof.
  intros (Hns & [p Hd] & Hq).
  assert (En : nth_error (drains w) 0 = Some p) by (rewrite Hd; reflexivity).
  destruct p as [batch ops| |].
  - rewrite (resume_commit _ _ _ _ _ _ En).
    assert (Hq' : queue (bsq (commitDone e true batch ops w)) = queue (bsq w))
      by reflexivity.
    rewrite Hq', length_pos_ltb by exact Hq.
    split; [|split; [reflexivity|apply Permutation_refl]].
    split; [exact Hns|]. split; [|exact Hq].
    exists AwaitSleep. simpl. rewrite Hd. reflexivity.
  - rewrite (resume_return _ _ _ _ En), length_pos_ltb by exact Hq.
    split; [|split; [reflexivity|apply Permutation_refl]].
    split; [exact Hns|]. split; [|exact Hq].
    exists AwaitSleep. simpl. rewrite Hd. reflexivity.
  - rewrite (resume_sleep _ _ _ _ En), length_pos_ltb by exact Hq.
    rewrite takeBatch_no_session by exact Hns. simpl.
    assert (Hp : Permutation
                   (skipn (batchSize (bsq w)) (queue (bsq w)) ++
                    firstn (batchSize (bsq w)) (queue (bsq w)))
                   (queue (bsq w))).
    { rewrite Permutation_app_comm, firstn_skipn. apply Permutation_refl. }
    split; [|split; [reflexivity|exact Hp]].
    split; [exact Hns|]. split.
    + exists AwaitReturn. simpl. rewrite Hd. reflexivity.
    + simpl. intros E. rewrite E in Hp. apply Permutation_nil in Hp.
      exact (Hq Hp).
Qed.

(** X5. While nobody is logged in (or Firestore is not initialised) a drain
    loop with something in the queue never ends: every pass takes a batch and
    puts it back behind the rest, so that the queue is only permuted, and
    nothing is ever sent to Firestore. *)
Theorem drain_without_session_never_ends : forall e w,
  spinning w ->
  (forall fuel, drainAll fuel e w = None) /\
  (forall n, let w' := Nat.iter n (resume e 0 true) w in
             drains w' <> [] /\ requests w' = requests w /\
             Permutation (queue (bsq w')) (queue (bsq w))).
Proof.
  intros e w H. split.
  - intros fuel. revert w H. induction fuel as [|fuel IH]; intros w H.
    + destruct H as (_ & [p Hd] & _). simpl. rewrite Hd. reflexivity.
    + pose proof H as (_ & [p Hd] & _).
      rewrite drainAll_step by (rewrite Hd; discriminate).
      apply IH. apply resume_spinning, H.
  - intros n.
    assert (Hn : spinning (Nat.iter n (resume e 0 true) w) /\
                 requests (Nat.iter n (resume e 0 true) w) = requests w /\
                 Permutation (queue (bsq (Nat.iter n (resume e 0 true) w)))
                             (queue (bsq w))).
    { induction n as [|n (Hs & Hr & Hp)]; simpl.
      - split; [exact H|]. split; [reflexivity|apply Permutation_refl].
      - destruct (resume_spinning e _ Hs) as (Hs' & Hr' & Hp').
        split; [exact Hs'|]. split; [congruence|].
        eapply Permutation_trans; eassumption. }
    destruct Hn as ((_ & [p Hd] & _) & Hr & Hp). simpl.
    split; [rewrite Hd; discriminate|]. split; assumption.
Qed.

Lemma drain_without_session_never_ends_witness :
  let w := run [(envAt 1, Enqueue "create" "invoices" noData (Some "inv-1"))]
               (initial 0) in
  drainAll 1000 (envAt 2) w = None.
Proof.
  intro w.
  assert (H : spinning w).
  { split; [left; reflexivity|]. split; [exists AwaitReturn; reflexivity|].
    discriminate. }
  exact (proj1 (drain_without_session_never_ends (envAt 2) w H) 1000%nat).
Defined.

Lemma rotate_single {A} n (x : A) : skipn n [x] ++ firstn n [x] = [x].
Proof. destruct n; simpl; [reflexivity|]. rewrite skipn_nil, firstn_nil. reflexivity. Qed.

(** X6. Without a session the two ways in differ.  [queueBackgroundSync]
    refuses: it writes one console line and queues nothing.  A direct
    [enqueue] on the idle queue queues the item and starts the drain loop,
    which sends nothing and keeps running: [getStatus] then reports one item
    queued and [processing] true. *)
Theorem enqueue_without_session_queues_and_spins : forall e op coll d i w,
  idle w -> no_session w ->
  queueBackgroundSync e coll d op w = log InfoSkipping w /\
  (let w' := enqueue e op coll d i w in
   getStatus w' = mkStatus 1 true 1 /\
   queue (bsq w') = [newItem e op coll d i] /\
   requests w' = requests w /\ remote w' = remote w /\
   spinning w').
Proof.
  intros e op coll d i w (Hq & Hp & Hd) Hns. split.
  - unfold queueBackgroundSync. destruct Hns as [-> | ->]; [reflexivity|].
    destruct (currentUser w); reflexivity.
  - set (it := newItem e op coll d i).
    assert (E : enqueue e op coll d i w =
                set_drains [AwaitReturn]
                  (set_queue [it] (set_processing true (push [it] w)))).
    { unfold enqueue. fold it. simpl processing. rewrite Hp. simpl negb. cbv iota.
      unfold processQueue. simpl processing. rewrite Hp.
      simpl queue. rewrite Hq. simpl.
      fold (set_processing true (push [it] w)).
      rewrite takeBatch_no_session by exact Hns.
      simpl. rewrite Hq, Hd. simpl. rewrite rotate_single. reflexivity. }
    cbv zeta. rewrite E. unfold getStatus. simpl.
    repeat split; try reflexivity; try exact Hns.
    + exists AwaitReturn. reflexivity.
    + discriminate.
Qed.

Lemma enqueue_without_session_queues_and_spins_witness :
  getStatus (enqueue (envAt 1) "create" "invoices" noData None (initial 0)) =
  mkStatus 1 true 1.
Proof.
  apply (enqueue_without_session_queues_and_spins (envAt 1) "create" "invoices"
           noData None (initial 0)).
  - repeat split; reflexivity.
  - left. reflexivity.
Defined.

(** ** [clear] and a batch in flight *)

(** X7. [clear] empties the queue and clears the flag, but does not cancel a
    batch whose commit is pending: when that commit succeeds its writes are
    committed all the same, and when it fails its items come back, as the
    only items of the queue that was cleared. *)
Theorem clear_does_not_cancel_batch_in_flight : forall e k batch ops w,
  nth_error (drains w) k = Some (AwaitCommit batch ops) ->
  getStatus (clear w) = mkStatus 0 false 0 /\
  drains (clear w) = drains w /\
  remote (resume e k true (clear w)) = remote w ++ ops /\
  queue (bsq (resume e k true (clear w))) = [] /\
  queue (bsq (resume e k false (clear w))) = map bump batch /\
  remote (resume e k false (clear w)) = remote w.
Proof.
  intros e k batch ops w H.
  assert (Hc : nth_error (drains (clear w)) k = Some (AwaitCommit batch ops))
    by exact H.
  split; [reflexivity|]. split; [reflexivity|].
  rewrite !(resume_commit _ _ _ _ _ _ Hc).
  split; [|split; [|split]].
  - simpl. reflexivity.
  - simpl. reflexivity.
  - unfold commitDone. simpl. destruct (map bump batch); reflexivity.
  - unfold commitDone. simpl. destruct (map bump batch); reflexivity.
Qed.

Lemma clear_does_not_cancel_batch_in_flight_witness :
  let w := run [(envAt 1, Enqueue "update" "invoices" noData (Some "inv-1"))]
               (loggedIn "u1") in
  remote (resume (envAt 3) 0 true (clear w)) =
    [] ++ [OpSet "u1" "invoices" "inv-1" noData].
Proof.
  intro w.
  apply (clear_does_not_cancel_batch_in_flight (envAt 3) 0
           [mkItem "update" "invoices" noData "inv-1" 1 0]
           [OpSet "u1" "invoices" "inv-1" noData] w).
  reflexivity.
Defined.

(** ** Commits that keep failing *)

Lemma bump_valid l :
  Forall (fun it => valid_operation (operation it)) l ->
  Forall (fun it => valid_operation (operation it)) (map bump l).
Proof. induction 1; simpl; constructor; assumption. Qed.

Lemma firstn_nonempty {A} n (l : list A) :
  (0 < n)%nat -> l <> [] -> firstn n l <> [].
Proof. destruct n; [lia|]. destruct l; [congruence|]. discriminate. Qed.

Lemma Forall_firstn_valid {A} (P : A -> Prop) n l :
  Forall P l -> Forall P (firstn n l).
Proof.
  intros H. rewrite <- (firstn_skipn n l) in H.
  apply Forall_app in H. tauto.
Qed.

(** A failed commit: the batch goes back to the queue and the loop sleeps. *)
Lemma resume_failed_commit uid e w batch ops :
  session w uid -> (0 < batchSize (bsq w))%nat ->
  Forall (fun it => valid_operation (operation it)) (queue (bsq w)) ->
  drains w = [AwaitCommit batch ops] -> batch <> [] ->
  Forall (fun it => valid_operation (operation it)) batch ->
  let w' := resume e 0 false w in
  retrying uid w' /\ drains w' = [AwaitSleep] /\ queue (bsq w') <> [] /\
  remote w' = remote w /\ requests w' = requests w.
Proof.
  intros Hs Hb Hv Hd Hne Hvb w'. subst w'.
  assert (En : nth_error (drains w) 0 = Some (AwaitCommit batch ops))
    by (rewrite Hd; reflexivity).
  rewrite (resume_commit _ _ _ _ _ _ En).
  assert (Hq : queue (bsq (commitDone e false batch ops w)) =
               queue (bsq w) ++ map bump batch) by reflexivity.
  assert (Hq' : queue (bsq w) ++ map bump batch <> []).
  { destruct batch; [congruence|]. destruct (queue (bsq w)); discriminate. }
  rewrite Hq, length_pos_ltb by exact Hq'.
  assert (Hd' : drains (suspend 0 AwaitSleep (commitDone e false batch ops w))
                = [AwaitSleep]) by (simpl; rewrite Hd; reflexivity).
  assert (Hv' : Forall (fun it => valid_operation (operation it))
                       (queue (bsq w) ++ map bump batch))
    by (apply Forall_app; split; [exact Hv|apply bump_valid, Hvb]).
  split; [|repeat split; try assumption; reflexivity].
  split; [exact Hs|]. split; [exact Hb|]. split; [exact Hv'|].
  right. split; assumption.
Qed.

(** After the sleep the loop takes the next batch and sends a commit. *)
Lemma resume_after_sleep uid e ok w :
  session w uid -> accepting e -> (0 < batchSize (bsq w))%nat ->
  Forall (fun it => valid_operation (operation it)) (queue (bsq w)) ->
  drains w = [AwaitSleep] -> queue (bsq w) <> [] ->
  let w' := resume e 0 ok w in
  let batch := firstn (batchSize (bsq w)) (queue (bsq w)) in
  retrying uid w' /\
  drains w' = [AwaitCommit batch (writes_of uid batch)] /\ batch <> [] /\
  Forall (fun it => valid_operation (operation it)) batch /\
  queue (bsq w') = skipn (batchSize (bsq w)) (queue (bsq w)) /\
  remote w' = remote w /\ requests w' = S (requests w).
Proof.
  intros Hs Ha Hb Hv Hd Hq w' batch. subst w'.
  assert (En : nth_error (drains w) 0 = Some AwaitSleep)
    by (rewrite Hd; reflexivity).
  assert (Hne : batch <> []) by (apply firstn_nonempty; assumption).
  assert (Hvb : Forall (fun it => valid_operation (operation it)) batch)
    by (apply Forall_firstn_valid, Hv).
  rewrite (resume_sleep _ _ _ _ En), length_pos_ltb by exact Hq.
  rewrite (takeBatch_accepting e uid w Hs Ha). fold batch. cbv zeta.
  rewrite writes_of_valid_length by exact Hvb.
  rewrite length_pos_ltb by exact Hne. cbn [fst snd].
  set (v := suspend 0 (AwaitCommit batch (writes_of uid batch))
              (request (set_queue (skipn (batchSize (bsq w)) (queue (bsq w))) w))).
  assert (Hdv : drains v = [AwaitCommit batch (writes_of uid batch)])
    by (subst v; simpl; rewrite Hd; reflexivity).
  assert (Hvs : Forall (fun it => valid_operation (operation it))
                       (queue (bsq v)))
    by (apply Forall_skipn_valid, Hv).
  split; [|split; [exact Hdv|repeat split; assumption]].
  split; [exact Hs|]. split; [exact Hb|]. split; [exact Hvs|].
  left. exists batch, (writes_of uid batch).
  split; [exact Hdv|]. split; assumption.
Qed.

Lemma resume_retrying uid e w :
  accepting e -> retrying uid w ->
  retrying uid (resume e 0 false w) /\
  remote (resume e 0 false w) = remote w.
Proof.
  intros Ha (Hs & Hb & Hv & [(batch & ops & Hd & Hne & Hvb) | (Hd & Hq)]).
  - destruct (resume_failed_commit uid e w batch ops Hs Hb Hv Hd Hne Hvb)
      as (H & _ & _ & Hr & _). split; assumption.
  - destruct (resume_after_sleep uid e false w Hs Ha Hb Hv Hd Hq)
      as (H & _ & _ & _ & _ & Hr & _). split; assumption.
Qed.

(** X8. With a user logged in, Firestore accepting every write, and a batch
    of create, update or delete items waiting for its commit: if that commit
    and every later one fails, the drain loop never ends and nothing is
    committed, however often it is resumed, and each failure is followed by
    one more commit request after the sleep; no count of attempts ends the
    retries. *)
Theorem failing_commits_are_retried_forever : forall uid e w batch ops,
  accepting e -> session w uid -> (0 < batchSize (bsq w))%nat ->
  Forall (fun it => valid_operation (operation it)) (queue (bsq w)) ->
  drains w = [AwaitCommit batch ops] -> batch <> [] ->
  Forall (fun it => valid_operation (operation it)) batch ->
  (forall n, drains (failedResumes n e w) <> [] /\
             remote (failedResumes n e w) = remote w) /\
  (forall k, requests (failedResumes (2 * k) e w) = (requests w + k)%nat /\
             exists b o, drains (failedResumes (2 * k) e w) = [AwaitCommit b o]).
Proof.
  intros uid e w batch ops Ha Hs Hb Hv Hd Hne Hvb.
  assert (H0 : retrying uid w).
  { split; [exact Hs|]. split; [exact Hb|]. split; [exact Hv|].
    left. exists batch, ops. repeat split; assumption. }
  split.
  - intros n.
    assert (Hn : retrying uid (failedResumes n e w) /\
                 remote (failedResumes n e w) = remote w).
    { induction n as [|n [IH1 IH2]]; [split; [exact H0|reflexivity]|].
      unfold failedResumes in *. simpl.
      destruct (resume_retrying uid e _ Ha IH1) as [H1 H2].
      split; [exact H1|congruence]. }
    destruct Hn as [(_ & _ & _ & [(b & o & E & _) | (E & _)]) Hr];
      (split; [rewrite E; discriminate|exact Hr]).
  - intros k.
    assert (Hk : requests (failedResumes (2 * k) e w) = (requests w + k)%nat /\
                 session (failedResumes (2 * k) e w) uid /\
                 (0 < batchSize (bsq (failedResumes (2 * k) e w)))%nat /\
                 Forall (fun it => valid_operation (operation it))
                        (queue (bsq (failedResumes (2 * k) e w))) /\
                 exists b o,
                   drains (failedResumes (2 * k) e w) = [AwaitCommit b o] /\
                   b <> [] /\
                   Forall (fun it => valid_operation (operation it)) b).
    { induction k as [|k (Hr & Hs' & Hb' & Hv' & b & o & Hd' & Hne' & Hvb')].
      - unfold failedResumes. simpl. rewrite Nat.add_0_r.
        split; [reflexivity|]. split; [exact Hs|]. split; [exact Hb|].
        split; [exact Hv|]. exists batch, ops.
        split; [exact Hd|]. split; assumption.
      - replace (2 * S k)%nat with (S (S (2 * k))) by lia.
        unfold failedResumes in *. rewrite !Nat.iter_succ.
        set (v := Nat.iter (2 * k) (resume e 0 false) w) in *.
        destruct (resume_failed_commit uid e v b o Hs' Hb' Hv' Hd' Hne' Hvb')
          as ((Hs1 & Hb1 & Hv1 & _) & Hd1 & Hq1 & _ & Hr1).
        destruct (resume_after_sleep uid e false _ Hs1 Ha Hb1 Hv1 Hd1 Hq1)
          as ((Hs2 & Hb2 & Hv2 & _) & Hd2 & Hne2 & Hvb2 & _ & _ & Hr2).
        split; [rewrite Hr2, Hr1, Hr; lia|].
        split; [exact Hs2|]. split; [exact Hb2|]. split; [exact Hv2|].
        eexists _, _. split; [exact Hd2|]. split; assumption. }
    destruct Hk as (Hr & _ & _ & _ & b & o & Hd' & _).
    split; [exact Hr|]. exists b, o. exact Hd'.
Qed.

Lemma failing_commits_are_retried_forever_witness :
  let w := run [(envAt 1, Enqueue "update" "invoices" noData (Some "inv-1"))]
               (loggedIn "u1") in
  requests (failedResumes (2 * 10) (envAt 2) w) = (requests w + 10)%nat.
Proof.
  intro w.
  destruct (failing_commits_are_retried_forever "u1" (envAt 2) w
              [mkItem "update" "invoices" noData "inv-1" 1 0]
              [OpSet "u1" "invoices" "inv-1" noData]) as [_ H].
  - intros u it. reflexivity.
  - split; reflexivity.
  - simpl. lia.
  - apply Forall_nil.
  - reflexivity.
  - discriminate.
  - apply Forall_cons; [right; left; reflexivity|apply Forall_nil].
  - exact (proj1 (H 10%nat)).
Defined.

(** ** A background sync from the call to the commit *)

Lemma orElse_orElse x y : orElse (Some (orElse x y)) y = orElse x y.
Proof.
  unfold orElse. destruct x as [s|].
  - destruct (String.eqb s "") eqn:E.
    + destruct (String.eqb y "") eqn:E'; reflexivity.
    + rewrite E. reflexivity.
  - destruct (String.eqb y "") eqn:E'; reflexivity.
Qed.

(** X9. With a user logged in and the queue idle, [queueBackgroundSync] of
    a create, update or delete puts one item in flight at once: its document
    id is [data.id] when the data has one and a generated id otherwise, and
    one commit request is sent.  When the commit succeeds, exactly that write
    is added to the store, the tracker records one write, and the queue is
    idle again. *)
Theorem queueBackgroundSync_commits_one_write : forall e e' uid coll d op w,
  idle w -> session w uid -> (0 < batchSize (bsq w))%nat ->
  valid_operation op -> accepting e ->
  let it := mkItem op coll d (orElse (data_id d) (generateId e)) (now e) 0 in
  let w1 := queueBackgroundSync e coll d op w in
  let w2 := resume e' 0 true w1 in
  exists o,
    write_of uid it = Some o /\
    drains w1 = [AwaitCommit [it] [o]] /\ queue (bsq w1) = [] /\
    requests w1 = S (requests w) /\ remote w1 = remote w /\
    idle w2 /\ remote w2 = remote w ++ [o] /\ requests w2 = S (requests w) /\
    usage w2 = trackFirestoreWrite 1 (now e') (usage w) /\
    console w2 = console w ++ [InfoQueued op coll; InfoSynced 1].
Proof.
  intros e e' uid coll d op w (Hq & Hp & Hd) [Hu Hdb] Hb Hop Ha it w1 w2.
  destruct (write_of_valid uid it Hop) as [o Ho]. exists o.
  split; [exact Ho|].
  assert (E1 : w1 = log (InfoQueued op coll)
                     (set_drains [AwaitCommit [it] [o]]
                        (request (set_processing true w)))).
  { subst w1. unfold queueBackgroundSync. rewrite Hu, Hdb. f_equal.
    unfold enqueue, newItem. rewrite orElse_orElse. fold it.
    simpl processing. rewrite Hp. simpl negb. cbv iota.
    unfold processQueue. simpl processing. rewrite Hp. simpl queue. rewrite Hq.
    simpl. fold (set_processing true (push [it] w)).
    rewrite (takeBatch_accepting e uid) by (try split; assumption).
    simpl queue. rewrite Hq. simpl app.
    rewrite firstn_single, skipn_single by exact Hb.
    unfold writes_of. simpl. rewrite Ho. simpl. rewrite Hd.
    destruct w as [[q p b t r] cu db us rm rq c ds]. simpl in *. subst q.
    reflexivity. }
  assert (E2 : w2 = finish 0 (commitDone e' true [it] [o] w1)).
  { subst w2. rewrite (resume_commit e' 0 true [it] [o])
      by (rewrite E1; reflexivity).
    rewrite E1. simpl. rewrite Hq. reflexivity. }
  rewrite E2, E1. simpl. rewrite Hq.
  repeat split; try reflexivity.
  - exact Hq.
  - rewrite <- app_assoc. reflexivity.
Qed.

Lemma queueBackgroundSync_commits_one_write_witness :
  let d := mkData (Some "inv-7") [("amount", "100")] in
  let w1 := queueBackgroundSync (envAt 1) "invoices" d "create" (loggedIn "u1") in
  remote (resume (envAt 2) 0 true w1) = [OpSet "u1" "invoices" "inv-7" d].
Proof.
  intros d w1.
  destruct (queueBackgroundSync_commits_one_write (envAt 1) (envAt 2) "u1"
              "invoices" d "create" (loggedIn "u1"))
    as (o & Ho & _ & _ & _ & _ & _ & Hr & _).
  - repeat split; reflexivity.
  - split; reflexivity.
  - simpl. lia.
  - left. reflexivity.
  - intros u it. reflexivity.
  - inversion Ho; subst o. exact Hr.
Defined.

(** ** Commits that fail now and then *)

Lemma writes_of_bump uid l : writes_of uid (map bump l) = writes_of uid l.
Proof.
  induction l as [|it l IH]; simpl; [reflexivity|].
  unfold writes_of in *. simpl. rewrite IH. reflexivity.
Qed.

Lemma takeBatch_accepting_pending e uid w :
  session w uid -> accepting e ->
  Forall (fun it => valid_operation (operation it)) (queue (bsq w)) ->
  pending_ops (snd (takeBatch e w)) =
    writes_of uid (pending_batch (snd (takeBatch e w))) /\
  Forall (fun it => valid_operation (operation it))
         (pending_batch (snd (takeBatch e w))).
Proof.
  intros Hs Ha Hv. rewrite (takeBatch_accepting e uid) by assumption. cbv zeta.
  destruct (0 <? _)%nat; simpl; split; try reflexivity; try constructor.
  rewrite <- (firstn_skipn (batchSize (bsq w)) (queue (bsq w))) in Hv.
  apply Forall_app in Hv. tauto.
Qed.

Lemma enqueued_valid_calm tr :
  Forall calm tr ->
  Forall (fun it => valid_operation (operation it)) (enqueued tr).
Proof.
  induction 1 as [|[e ev] tr [_ Hev] _ IH]; simpl; [constructor|].
  destruct ev; simpl in *; try exact IH. constructor; assumption.
Qed.

Section Calm.
Variables (uid : string) (w0 : World).

(** The drain loop takes its next batch. *)
Lemma accounted_take e items v done :
  accepting e -> session v uid ->
  Forall (fun it => valid_operation (operation it)) (queue (bsq v)) ->
  batchSize (bsq v) = batchSize (bsq w0) ->
  remote v = remote w0 ++ done ->
  Permutation (done ++ writes_of uid (queue (bsq v))) (writes_of uid items) ->
  processing (bsq v) = true ->
  forall v', drains v' = [snd (takeBatch e v)] ->
             bsq v' = bsq (fst (takeBatch e v)) ->
             currentUser v' = currentUser v -> firebaseDB v' = firebaseDB v ->
             remote v' = remote v ->
  accounted uid w0 items v'.
Proof.
  intros Ha Hs Hv Hb Hr Hc Hp v' Hd' Hq' Hu' Hdb' Hr'.
  destruct (takeBatch_accepting_ops e uid v Hs Ha) as [Hops Hq].
  destruct (takeBatch_accepting_pending e uid v Hs Ha Hv) as [Hpo Hpv].
  destruct (takeBatch_frame e v) as (_ & Hp2 & Hb2 & _).
  unfold accounted.
  split; [destruct Hs; split; congruence|].
  split.
  { unfold single_drain. rewrite Hd', Hq', Hp2, Hp. simpl.
    split; [lia|]. split; [discriminate|reflexivity]. }
  split; [rewrite Hd'; discriminate|].
  rewrite Hq', Hq, Hb2.
  split; [apply Forall_skipn_valid, Hv|].
  split; [rewrite Hd'; constructor; [split; assumption|constructor]|].
  split; [exact Hb|].
  exists done. split; [congruence|].
  unfold inflight. rewrite Hd'. simpl. rewrite app_nil_r, Hops.
  rewrite <- writes_of_app, firstn_skipn. exact Hc.
Qed.

(** The drain loop is back from a batch: it sleeps if something is queued
    and ends otherwise. *)
Lemma accounted_end items v p done :
  session v uid -> drains v = [p] -> processing (bsq v) = true ->
  Forall (fun it => valid_operation (operation it)) (queue (bsq v)) ->
  batchSize (bsq v) = batchSize (bsq w0) ->
  remote v = remote w0 ++ done ->
  Permutation (done ++ writes_of uid (queue (bsq v))) (writes_of uid items) ->
  accounted uid w0 items
    (if (0 <? List.length (queue (bsq v)))%nat
     then suspend 0 AwaitSleep v else finish 0 v).
Proof.
  intros Hs Hd Hp Hv Hb Hr Hc.
  destruct (queue (bsq v)) as [|x q] eqn:Eq; simpl; unfold accounted.
  - split; [exact Hs|]. split.
    { unfold single_drain. simpl. rewrite Hd. simpl.
      split; [lia|]. split; [discriminate|congruence]. }
    split; [intros _; simpl; exact Eq|].
    split; [simpl; rewrite Eq; constructor|].
    split; [simpl; rewrite Hd; constructor|].
    split; [exact Hb|].
    exists done. split; [exact Hr|].
    unfold inflight. simpl. rewrite Hd, Eq. exact Hc.
  - split; [exact Hs|]. split.
    { unfold single_drain. simpl. rewrite Hd, Hp. simpl.
      split; [lia|]. split; [discriminate|reflexivity]. }
    split; [simpl; rewrite Hd; discriminate|].
    split; [simpl; rewrite Eq; exact Hv|].
    split.
    { simpl. rewrite Hd. simpl. constructor; [|constructor].
      split; [reflexivity|constructor]. }
    split; [exact Hb|].
    exists done. split; [exact Hr|].
    unfold inflight. simpl. rewrite Hd, Eq. exact Hc.
Qed.

Lemma accounted_step items w e ev :
  accounted uid w0 items w -> calm (e, ev) ->
  accounted uid w0 (items ++ enqueued [(e, ev)]) (step w (e, ev)).
Proof.
  intros Hacc [Ha Hev].
  pose proof Hacc as (Hs & Hsd & Hidle & Hv & Hpend & Hb & done & Hr & Hc).
  simpl in Ha, Hev.
  destruct ev as [op coll d i| | | | |k ok]; simpl in Hev; try contradiction;
    unfold enqueued; simpl flat_map; rewrite ?app_nil_r.
  - (* enqueue *)
    set (it := newItem e op coll d i).
    assert (Hv1 : Forall (fun it => valid_operation (operation it))
                         (queue (bsq w) ++ [it])).
    { apply Forall_app. split; [exact Hv|]. constructor; [exact Hev|constructor]. }
    destruct (single_drain_cases w Hsd) as [[Hd Hp] | (p & Hd & Hp)].
    + pose proof (Hidle Hd) as Hq.
      simpl. unfold enqueue. fold it. simpl processing. rewrite Hp. simpl negb.
      cbv iota. unfold processQueue. simpl processing. rewrite Hp.
      simpl queue. rewrite Hq. simpl.
      fold (set_processing true (push [it] w)).
      set (v := set_processing true (push [it] w)).
      destruct (takeBatch_frame e v) as (Hd2 & _ & _ & _ & Hu2 & Hdb2 & Hr2 & _).
      destruct (takeBatch e v) as [w2 p] eqn:Et.
      apply (accounted_take e _ v done); try assumption; try reflexivity.
      * subst v. simpl. rewrite Hq. simpl.
        unfold inflight in Hc. rewrite Hd, Hq in Hc. simpl in Hc.
        rewrite app_nil_r in Hc.
        rewrite (writes_of_app uid items). apply Permutation_app_tail. exact Hc.
      * rewrite Et. simpl in *. rewrite Hd2. subst v. simpl. rewrite Hd.
        reflexivity.
      * rewrite Et. reflexivity.
    + simpl. rewrite enqueue_while_processing by assumption. fold it.
      unfold accounted.
      split; [exact Hs|]. split; [exact Hsd|].
      split; [simpl; rewrite Hd; discriminate|].
      split; [exact Hv1|]. split; [exact Hpend|]. split; [exact Hb|].
      exists done. split; [exact Hr|].
      simpl. unfold inflight in *. simpl drains.
      rewrite !writes_of_app, !app_assoc. apply Permutation_app_tail.
      rewrite <- !app_assoc. exact Hc.
  - (* processQueue *)
    assert (E : processQueue e w = w).
    { destruct (single_drain_cases w Hsd) as [[Hd Hp] | (p & Hd & Hp)].
      - unfold processQueue. rewrite (Hidle Hd), Hp. reflexivity.
      - apply processQueue_while_processing, Hp. }
    simpl. rewrite E. exact Hacc.
  - (* a drain loop resumes *)
    simpl.
    destruct (nth_error (drains w) k) as [p|] eqn:En;
      [|rewrite resume_none by assumption; exact Hacc].
    destruct (single_drain_cases w Hsd) as [[Hd Hp] | (p' & Hd & Hp)];
      [rewrite Hd in En; destruct k; discriminate|].
    assert (k = 0%nat) as ->.
    { rewrite Hd in En. destruct k as [|[|k]]; [reflexivity|discriminate..]. }
    assert (p' = p) as -> by (rewrite Hd in En; inversion En; reflexivity).
    unfold inflight in Hc. rewrite Hd in Hc. simpl in Hc. rewrite app_nil_r in Hc.
    rewrite Hd in Hpend. inversion Hpend as [|? ? [Hpo Hpv] _]; subst.
    destruct p as [batch ops| |].
    + rewrite (resume_commit _ _ _ _ _ _ En). simpl in Hpo, Hpv, Hc.
      destruct ok.
      * apply (accounted_end items _ (AwaitCommit batch ops) (done ++ ops));
          try assumption; try reflexivity.
        -- simpl. rewrite Hr, app_assoc. reflexivity.
        -- simpl. rewrite <- app_assoc. exact Hc.
      * apply (accounted_end items _ (AwaitCommit batch ops) done);
          try assumption; try reflexivity.
        -- simpl. apply Forall_app. split; [exact Hv|apply bump_valid, Hpv].
        -- simpl. rewrite writes_of_app, writes_of_bump, <- Hpo.
           eapply Permutation_trans; [|exact Hc].
           apply Permutation_app_head, Permutation_app_comm.
    + rewrite (resume_return _ _ _ _ En).
      apply (accounted_end items w AwaitReturn done); assumption.
    + rewrite (resume_sleep _ _ _ _ En).
      destruct (queue (bsq w)) as [|x q] eqn:Eq.
      * pose proof (accounted_end items w AwaitSleep done Hs Hd Hp) as H.
        rewrite Eq in H. simpl in H. simpl. apply H; assumption.
      * simpl List.length. simpl Nat.ltb.
        destruct (takeBatch_frame e w) as (Hd2 & _ & _ & _ & Hu2 & Hdb2 & Hr2 & _).
        apply (accounted_take e _ w done); try assumption; try reflexivity.
        -- rewrite Eq. exact Hv.
        -- rewrite Eq. exact Hc.
        -- unfold suspend. simpl. rewrite Hd2, Hd. reflexivity.
Qed.

Lemma accounted_run : forall tr items w,
  accounted uid w0 items w -> Forall calm tr ->
  accounted uid w0 (items ++ enqueued tr) (run tr w).
Proof.
  induction tr as [|[e ev] tr IH]; intros items w H Hq.
  - simpl. rewrite app_nil_r. exact H.
  - inversion Hq as [|? ? Hx Htr]; subst.
    replace (enqueued ((e, ev) :: tr)) with (enqueued [(e, ev)] ++ enqueued tr)
      by (unfold enqueued; simpl; rewrite app_nil_r; reflexivity).
    rewrite app_assoc.
    change (run ((e, ev) :: tr) w) with (run tr (step w (e, ev))).
    apply IH; [|exact Htr]. apply accounted_step; assumption.
Qed.

Lemma accounted_drainAll items e :
  accepting e -> (0 < batchSize (bsq w0))%nat ->
  forall fuel w,
    accounted uid w0 items w -> (resumptions w <= fuel)%nat ->
    exists w', drainAll fuel e w = Some w' /\
               accounted uid w0 items w' /\ drains w' = [].
Proof.
  intros Ha Hb0. induction fuel as [|fuel IH]; intros w Hc Hfuel.
  - exists w. destruct (drains w) as [|p l] eqn:Hd.
    + simpl. rewrite Hd. auto.
    + unfold resumptions in Hfuel. rewrite Hd in Hfuel. destruct p; lia.
  - destruct (drains w) as [|p l] eqn:Hd.
    + exists w. rewrite drainAll_done by assumption. auto.
    + rewrite drainAll_step by (rewrite Hd; discriminate).
      pose proof Hc as (Hs & Hsd & _ & _ & _ & Hb & _).
      apply IH.
      * pose proof (accounted_step items w e (Resume 0 true) Hc) as H.
        unfold enqueued in H. simpl in H. rewrite app_nil_r in H.
        apply H. split; [exact Ha|exact I].
      * assert (resumptions (resume e 0 true w) < resumptions w)%nat.
        { apply (resume_decreases uid); try assumption.
          - rewrite Hb. exact Hb0.
          - rewrite Hd. discriminate. }
        lia.
Qed.
End Calm.

(** X10. Commits may fail any number of times along the way.  With a user
    logged in and Firestore accepting every write, take any run of [enqueue]
    calls of create, update or delete items, [processQueue] calls and
    resumptions whose commits succeed or fail; once the commits succeed, the
    drain loop ends (within [2 N + 2] resumptions) with the queue idle, and
    the writes committed since the start are those of the [N] enqueued items,
    each exactly once, in some order. *)
Theorem failed_commits_lose_and_duplicate_nothing : forall uid w0 tr e fuel,
  idle w0 -> session w0 uid -> (0 < batchSize (bsq w0))%nat ->
  Forall calm tr -> accepting e ->
  (2 * List.length (enqueued tr) + 2 <= fuel)%nat ->
  exists w' done,
    drainAll fuel e (run tr w0) = Some w' /\ idle w' /\
    remote w' = remote w0 ++ done /\
    Permutation done (writes_of uid (enqueued tr)) /\
    List.length done = List.length (enqueued tr).
Proof.
  intros uid w0 tr e fuel (Hq0 & Hp0 & Hd0) Hs0 Hb0 Htr Ha Hfuel.
  assert (H0 : accounted uid w0 [] w0).
  { unfold accounted. split; [exact Hs0|]. split.
    { unfold single_drain. rewrite Hd0, Hp0. simpl.
      split; [lia|]. split; [discriminate|congruence]. }
    split; [intros _; exact Hq0|]. split; [rewrite Hq0; constructor|].
    split; [rewrite Hd0; constructor|].
    split; [reflexivity|]. exists []. unfold inflight.
    rewrite Hd0, Hq0. split; [rewrite app_nil_r; reflexivity|constructor]. }
  pose proof (accounted_run uid w0 tr [] w0 H0 Htr) as Hc. simpl in Hc.
  pose proof (enqueued_valid_calm tr Htr) as Hvalid.
  assert (Hres : (resumptions (run tr w0) <= fuel)%nat).
  { destruct Hc as (_ & _ & _ & Hv & _ & _ & done & _ & Hperm).
    apply Permutation_length in Hperm.
    rewrite !length_app, (writes_of_valid_length _ _ Hv),
      (writes_of_valid_length _ _ Hvalid) in Hperm.
    unfold resumptions. destruct (drains (run tr w0)) as [|[] ?]; lia. }
  destruct (accounted_drainAll uid w0 (enqueued tr) e Ha Hb0 fuel _ Hc Hres)
    as (w' & Hrun & Hc' & Hd').
  destruct Hc' as (_ & Hsd & Hidle & _ & _ & _ & done & Hr & Hperm).
  exists w', done. split; [exact Hrun|].
  assert (Hdone : Permutation done (writes_of uid (enqueued tr))).
  { unfold inflight in Hperm. rewrite Hd', (Hidle Hd') in Hperm. simpl in Hperm.
    rewrite app_nil_r in Hperm. exact Hperm. }
  split.
  { split; [apply Hidle, Hd'|]. split; [|exact Hd'].
    destruct (single_drain_cases w' Hsd) as [[_ Hp] | (p & Hd & _)];
      [exact Hp|congruence]. }
  split; [exact Hr|]. split; [exact Hdone|].
  rewrite (Permutation_length Hdone). apply writes_of_valid_length, Hvalid.
Qed.

Lemma failed_commits_lose_and_duplicate_nothing_witness :
  let tr := [(envAt 1, Enqueue "create" "invoices" noData (Some "inv-1"));
             (envAt 2, Enqueue "delete" "invoices" noData (Some "inv-0"));
             (envAt 3, Resume 0 false);
             (envAt 4, Resume 0 true)] in
  exists w',
    drainAll 6 (envAt 5) (run tr (loggedIn "u1")) = Some w' /\
    List.length (remote w') = 2%nat.
Proof.
  intro tr.
  destruct (failed_commits_lose_and_duplicate_nothing "u1" (loggedIn "u1") tr
              (envAt 5) 6) as (w' & done & Hrun & _ & Hr & _ & Hlen).
  - repeat split; reflexivity.
  - split; reflexivity.
  - simpl. lia.
  - subst tr.
    repeat (apply Forall_cons;
            [split; [intros ? ?; reflexivity
                    |simpl; unfold valid_operation; auto]|]).
    apply Forall_nil.
  - intros u it. reflexivity.
  - simpl. lia.
  - exists w'. split; [exact Hrun|]. rewrite Hr. exact Hlen.
Defined.

(** ** Operations the switch does not know, and a batch that fails twice *)

Lemma write_of_unknown uid it :
  ~ valid_operation (operation it) -> write_of uid it = None.
Proof.
  unfold valid_operation, write_of. intros H.
  destruct (String.eqb_spec (operation it) "create"); [tauto|].
  destruct (String.eqb_spec (operation it) "update"); [tauto|].
  destruct (String.eqb_spec (operation it) "delete"); [tauto|].
  reflexivity.
Qed.

(** X19. An operation other than create, update or delete is dropped
    without a trace.  [immediateSync] resolves with true although nothing
    was sent, stored or recorded.  An item enqueued with such an operation is
    taken by the drain loop and never comes back: no write, no request, no
    console line, and the queue is idle after one resumption. *)
Theorem unknown_operation_is_dropped_silently : forall e e' ok uid coll d i op w,
  ~ valid_operation op -> session w uid -> accepting e ->
  (let r := immediateSync e ok coll d op w in
   fst r = Resolved true /\
   remote (snd r) = remote w /\ requests (snd r) = requests w /\
   usage (snd r) = usage w /\ bsq (snd r) = bsq w) /\
  (idle w -> (0 < batchSize (bsq w))%nat ->
   let w1 := enqueue e op coll d i w in
   let w2 := resume e' 0 ok w1 in
   drains w1 = [AwaitReturn] /\ queue (bsq w1) = [] /\
   idle w2 /\ remote w2 = remote w /\ requests w2 = requests w /\
   console w2 = console w /\ usage w2 = usage w).
Proof.
  intros e e' ok uid coll d i op w Hop [Hu Hdb] Ha. split.
  - unfold immediateSync. rewrite Hu, Hdb, Ha.
    rewrite write_of_unknown by exact Hop. simpl. repeat split; reflexivity.
  - intros (Hq & Hp & Hd) Hb w1 w2.
    set (it := newItem e op coll d i).
    assert (E1 : w1 = set_drains [AwaitReturn] (set_processing true w)).
    { subst w1. unfold enqueue. fold it. simpl processing. rewrite Hp.
      simpl negb. cbv iota. unfold processQueue. simpl processing. rewrite Hp.
      simpl queue. rewrite Hq. simpl.
      fold (set_processing true (push [it] w)).
      rewrite (takeBatch_accepting e uid) by (try split; assumption).
      simpl queue. rewrite Hq. simpl app.
      rewrite firstn_single, skipn_single by exact Hb.
      unfold writes_of. simpl.
      rewrite (write_of_unknown uid it) by exact Hop. simpl. rewrite Hd.
      destruct w as [[q p b t r] cu db us rm rq c ds]. simpl in *. subst q.
      reflexivity. }
    assert (E2 : w2 = finish 0 w1).
    { subst w2. rewrite (resume_return e' 0 ok) by (rewrite E1; reflexivity).
      rewrite E1. simpl. rewrite Hq. reflexivity. }
    rewrite E2, E1. repeat split; try reflexivity; simpl; exact Hq.
Qed.

Lemma unknown_operation_is_dropped_silently_witness :
  let w1 := enqueue (envAt 1) "upsert" "invoices" noData (Some "inv-1")
                    (loggedIn "u1") in
  queue (bsq w1) = [] /\ remote (resume (envAt 2) 0 true w1) = [].
Proof.
  intro w1.
  destruct (unknown_operation_is_dropped_silently (envAt 1) (envAt 2) true "u1"
              "invoices" noData (Some "inv-1") "upsert" (loggedIn "u1"))
    as [_ H].
  - unfold valid_operation. intuition discriminate.
  - split; reflexivity.
  - intros u it. reflexivity.
  - destruct H as (_ & Hq & _ & Hr & _).
    + repeat split; reflexivity.
    + simpl. lia.
    + split; [exact Hq|exact Hr].
Defined.

(** X20. A batch can fail twice over.  When the construction of some items
    fails and the commit of the rest fails too, the commit handler queues the
    whole batch again on top of what the for loop had queued: an item that
    was retried after its construction failure is then in the queue twice,
    with one and with two more attempts, and an item that the for loop had
    dropped for having used up its retries is back, with one more attempt. *)
Theorem construction_and_commit_failure_queue_twice :
  forall e e' uid batch w w1 batch' ops,
  session w uid ->
  processBatch e batch w = (w1, AwaitCommit batch' ops) ->
  let q := queue (bsq (commitDone e' false batch' ops w1)) in
  q = queue (bsq w)
      ++ map bump (filter (requeued e uid (retryAttempts (bsq w))) batch)
      ++ map bump batch' /\
  List.length batch' = List.length batch /\
  forall x, In x batch -> builds e uid x = false ->
    if attempts x <? retryAttempts (bsq w)
    then In (bump x) q /\ In (bump (bump x)) q
    else In (bump x) q.
Proof.
  intros e e' uid batch w w1 batch' ops Hs Hp q.
  destruct (processBatch_suspended _ _ _ _ _ _ _ Hs Hp) as (Hb & _ & _ & Hw1).
  assert (Hq : q = queue (bsq w)
                   ++ map bump (filter (requeued e uid (retryAttempts (bsq w)))
                                       batch)
                   ++ map bump batch').
  { subst q. rewrite Hw1. simpl. rewrite <- app_assoc. reflexivity. }
  split; [exact Hq|]. split; [rewrite Hb; apply length_map|].
  intros x Hx Hbuild.
  assert (Hr : requeued e uid (retryAttempts (bsq w)) x =
               (attempts x <? retryAttempts (bsq w)))
    by (unfold requeued; rewrite Hbuild; reflexivity).
  assert (Hin' : In (if requeued e uid (retryAttempts (bsq w)) x
                     then bump x else x) batch')
    by (rewrite Hb; apply (in_map (fun it => if requeued e uid _ it
                                             then bump it else it)), Hx).
  rewrite Hr in Hin'. rewrite Hq.
  destruct (attempts x <? retryAttempts (bsq w)) eqn:Ea.
  - split.
    + apply in_or_app. right. apply in_or_app. left. apply in_map.
      apply filter_In. split; [exact Hx|exact Hr].
    + apply in_or_app. right. apply in_or_app. right. apply in_map. exact Hin'.
  - apply in_or_app. right. apply in_or_app. right. apply in_map. exact Hin'.
Qed.

Lemma construction_and_commit_failure_queue_twice_witness :
  let a := mkItem "create" "invoices" noData "a" 1 0 in
  let b := mkItem "create" "invoices" noData "b" 1 0 in
  let e := mkEnv 2 "k3f9x" (fun _ it => negb (String.eqb (id it) "a")) in
  let w1 := fst (processBatch e [a; b] (loggedIn "u1")) in
  queue (bsq (commitDone e false [bump a; b]
                [OpSet "u1" "invoices" "b" noData] w1)) =
  [bump a; bump (bump a); bump b].
Proof.
  intros a b e w1.
  apply (construction_and_commit_failure_queue_twice e e "u1" [a; b]
           (loggedIn "u1") w1 [bump a; b] [OpSet "u1" "invoices" "b" noData]).
  - split; reflexivity.
  - reflexivity.
Defined.

(** * The bridge *)

Ltac bridge_cbn :=
  cbn -[Nat.leb Bridge.dataMaxAttempts Bridge.appMaxAttempts] in *.

Lemma bridge_step_ordered w ev : Bridge.ordered w -> Bridge.ordered (Bridge.step w ev).
Proof.
  unfold Bridge.ordered, Bridge.step.
  destruct (Bridge.phase w) as [|n|n|] eqn:Ep; destruct ev as [|r]; bridge_cbn;
    rewrite ?Ep; try (intros H; exact H).
  - intros ->. split; [reflexivity|].
    unfold Bridge.dataMaxAttempts. lia.
  - intros [-> Hn].
    destruct (Nat.leb_spec Bridge.dataMaxAttempts (S n)); destruct r; bridge_cbn;
      (split; [reflexivity|unfold Bridge.appMaxAttempts; lia]).
  - intros [-> Hn].
    destruct (Nat.leb_spec Bridge.appMaxAttempts (S n)); destruct r; bridge_cbn;
      try reflexivity.
    split; [reflexivity|lia].
Qed.

Lemma bridge_run_ordered evs : forall w,
  Bridge.ordered w -> Bridge.ordered (Bridge.run evs w).
Proof.
  induction evs as [|ev evs IH]; intros w H; [exact H|].
  simpl. apply IH, bridge_step_ordered, H.
Qed.

(** X11. Whatever events reach the bridge after the script is loaded, its
    flags rise in the order ui, data, app, bridge: the data flag is never set
    without the ui flag, nor the app flag without the data flag; [bridgeReady]
    is set together with the app flag and [initializationComplete], at the
    end of the initialization only.  So [isReady()] and the [ready] field
    of [getStatus()] always agree. *)
Theorem bridge_flags_rise_in_order : forall evs,
  let w := Bridge.run evs Bridge.loaded in
  let f := Bridge.flags w in
  (Bridge.dataLayerReady f = true -> Bridge.uiLayerReady f = true) /\
  (Bridge.appLayerReady f = true -> Bridge.dataLayerReady f = true) /\
  Bridge.bridgeReady f = Bridge.appLayerReady f /\
  Bridge.initializationComplete f = Bridge.bridgeReady f /\
  Bridge.isReady w = Bridge.ready (Bridge.getStatus w) /\
  (Bridge.isReady w = true <-> Bridge.phase w = Bridge.Done).
Proof.
  intros evs w f.
  assert (H : Bridge.ordered w)
    by (apply bridge_run_ordered; reflexivity).
  subst f. unfold Bridge.ordered, Bridge.isReady, Bridge.getStatus in *.
  destruct (Bridge.phase w); [|destruct H as [H _]|destruct H as [H _]|];
    rewrite H; simpl; repeat split; congruence.
Qed.

Lemma bridge_step_ticks_left w ev :
  Bridge.ordered w -> Bridge.phase w <> Bridge.AwaitDOM ->
  Bridge.phase (Bridge.step w ev) <> Bridge.AwaitDOM /\
  (Bridge.ticks_left (Bridge.step w ev)
   <= Bridge.ticks_left w - Bridge.ticks [ev])%nat.
Proof.
  unfold Bridge.ordered, Bridge.step, Bridge.ticks_left, Bridge.ticks.
  destruct (Bridge.phase w) as [|n|n|] eqn:Ep; destruct ev as [|r]; bridge_cbn;
    rewrite ?Ep; intros H Hne; try congruence; try (split; [exact Hne|lia]).
  - destruct H as [_ Hn].
    destruct (Nat.leb_spec Bridge.dataMaxAttempts (S n)); destruct r; bridge_cbn;
      (split; [discriminate|lia]).
  - destruct H as [_ Hn].
    destruct (Nat.leb_spec Bridge.appMaxAttempts (S n)); destruct r; bridge_cbn;
      (split; [discriminate|lia]).
Qed.

Lemma bridge_ticks_cons ev evs :
  Bridge.ticks (ev :: evs) = (Bridge.ticks [ev] + Bridge.ticks evs)%nat.
Proof. unfold Bridge.ticks. simpl. destruct ev; reflexivity. Qed.

Lemma bridge_run_finishes evs : forall w,
  Bridge.ordered w -> Bridge.phase w <> Bridge.AwaitDOM ->
  (Bridge.ticks_left w <= Bridge.ticks evs)%nat ->
  Bridge.phase (Bridge.run evs w) = Bridge.Done.
Proof.
  induction evs as [|ev evs IH]; intros w Ho Hne Hle.
  - simpl. unfold Bridge.ticks in Hle. simpl in Hle.
    unfold Bridge.ticks_left, Bridge.ordered in *.
    destruct (Bridge.phase w) as [|n|n|]; try congruence;
      destruct Ho as [_ Hn];
      unfold Bridge.dataMaxAttempts, Bridge.appMaxAttempts in *; lia.
  - simpl. destruct (bridge_step_ticks_left w ev Ho Hne) as [Hne' Hle'].
    rewrite bridge_ticks_cons in Hle.
    apply IH; [apply bridge_step_ordered, Ho|exact Hne'|lia].
Qed.

(** X12. The initialization never hangs.  Once the document is loaded,
    300 interval ticks (200 for the data layer, 100 for the app layer, 50 ms
    each) finish it whatever the two waits observe: the bridge then reports
    ready even if neither layer ever showed up. *)
Theorem bridge_initialization_is_bounded : forall evs,
  (Bridge.dataMaxAttempts + Bridge.appMaxAttempts <= Bridge.ticks evs)%nat ->
  let w := Bridge.run (Bridge.DomReady :: evs) Bridge.loaded in
  Bridge.phase w = Bridge.Done /\ Bridge.isReady w = true /\
  Bridge.flags w = Bridge.mkFlags true true true true true.
Proof.
  intros evs Hle w.
  assert (Hp : Bridge.phase w = Bridge.Done).
  { subst w. simpl. apply bridge_run_finishes.
    - apply bridge_step_ordered. reflexivity.
    - discriminate.
    - exact Hle. }
  assert (Ho : Bridge.ordered w) by (apply bridge_run_ordered; reflexivity).
  unfold Bridge.ordered in Ho. rewrite Hp in Ho.
  unfold Bridge.isReady. rewrite Ho. repeat split; assumption.
Qed.

Lemma bridge_initialization_is_bounded_witness :
  Bridge.isReady
    (Bridge.run (Bridge.DomReady :: repeat (Bridge.Tick false) 300)
                Bridge.loaded) = true.
Proof.
  apply (bridge_initialization_is_bounded (repeat (Bridge.Tick false) 300)).
  vm_compute. repeat constructor.
Defined.

Lemma bridge_waiting_for_data n : forall k w,
  Bridge.phase w = Bridge.AwaitDataLayer k ->
  (k + n < Bridge.dataMaxAttempts)%nat ->
  Bridge.run (repeat (Bridge.Tick false) n) w =
  Bridge.mkWorld (Bridge.flags w) (Bridge.AwaitDataLayer (k + n))
                 (Bridge.console w).
Proof.
  induction n as [|n IH]; intros k w Hp Hlt.
  - simpl. rewrite Nat.add_0_r, <- Hp. destruct w; reflexivity.
  - change (Bridge.run (repeat (Bridge.Tick false) (S n)) w)
      with (Bridge.run (repeat (Bridge.Tick false) n)
                       (Bridge.step w (Bridge.Tick false))).
    assert (E : Bridge.step w (Bridge.Tick false) =
                Bridge.mkWorld (Bridge.flags w) (Bridge.AwaitDataLayer (S k))
                               (Bridge.console w)).
    { unfold Bridge.step. rewrite Hp.
      destruct (Nat.leb_spec Bridge.dataMaxAttempts (S k)); [lia|]. reflexivity. }
    rewrite E, (IH (S k)); [|reflexivity|bridge_cbn; lia]. bridge_cbn.
    replace (S (k + n))%nat with (k + S n)%nat by lia. reflexivity.
Qed.

(** X13. The wait for the data layer, started when the document is loaded,
    ends at the first tick at which the layer is observed, or at the 200th
    tick, whichever comes first.  Before the 200th tick an observation ends
    it without a warning and a missing one only counts the attempt; at the
    200th tick the wait ends with the timeout warning in either case, also
    when the layer is ready at that very tick. *)
Theorem bridge_data_wait_ends_at_first_sight_or_timeout : forall n r,
  (n < Bridge.dataMaxAttempts)%nat ->
  let w := Bridge.run [Bridge.DomReady] Bridge.loaded in
  let w' := Bridge.run (repeat (Bridge.Tick false) n ++ [Bridge.Tick r]) w in
  if (S n =? Bridge.dataMaxAttempts)%nat then
    Bridge.phase w' = Bridge.AwaitAppLayer 0 /\
    Bridge.dataLayerReady (Bridge.flags w') = true /\
    Bridge.console w' =
      Bridge.console w ++ [Bridge.DataTimeout; Bridge.DataReady]
  else if r then
    Bridge.phase w' = Bridge.AwaitAppLayer 0 /\
    Bridge.dataLayerReady (Bridge.flags w') = true /\
    Bridge.console w' = Bridge.console w ++ [Bridge.DataReady]
  else
    Bridge.phase w' = Bridge.AwaitDataLayer (S n) /\
    Bridge.dataLayerReady (Bridge.flags w') = false /\
    Bridge.console w' = Bridge.console w.
Proof.
  intros n r Hn w w'.
  assert (Ew : w' = Bridge.step
                      (Bridge.mkWorld (Bridge.flags w) (Bridge.AwaitDataLayer n)
                                      (Bridge.console w))
                      (Bridge.Tick r)).
  { subst w'. unfold Bridge.run. rewrite fold_left_app.
    fold (Bridge.run (repeat (Bridge.Tick false) n) w).
    rewrite (bridge_waiting_for_data n 0 w eq_refl Hn). reflexivity. }
  rewrite Ew. clear Ew w'. unfold Bridge.step.
  cbn [Bridge.phase Bridge.flags Bridge.console].
  destruct (Nat.eqb_spec (S n) Bridge.dataMaxAttempts) as [E | E].
  - rewrite E, Nat.leb_refl, orb_true_r.
    cbn [Bridge.phase Bridge.flags Bridge.console].
    repeat split; reflexivity.
  - destruct (Nat.leb_spec Bridge.dataMaxAttempts (S n)); [lia|].
    destruct r; cbn [orb Bridge.phase Bridge.flags Bridge.console];
      repeat split; reflexivity.
Qed.

Lemma bridge_data_wait_ends_at_first_sight_or_timeout_witness :
  Bridge.phase
    (Bridge.run (repeat (Bridge.Tick false) 199 ++ [Bridge.Tick true])
                (Bridge.run [Bridge.DomReady] Bridge.loaded)) =
  Bridge.AwaitAppLayer 0.
Proof.
  apply (bridge_data_wait_ends_at_first_sight_or_timeout 199 true).
  unfold Bridge.dataMaxAttempts. lia.
Defined.

(** * The service worker *)

Import ServiceWorker.

Lemma cacheMatch_put_same u r c : cacheMatch u (cachePut u r c) = Some r.
Proof.
  induction c as [|[u' r'] c IH]; simpl.
  - rewrite String.eqb_refl. reflexivity.
  - destruct (String.eqb u' u) eqn:E; simpl.
    + rewrite String.eqb_refl. reflexivity.
    + rewrite E. exact IH.
Qed.

Lemma cacheMatch_put_other u v r c :
  v <> u -> cacheMatch v (cachePut u r c) = cacheMatch v c.
Proof.
  intros Hne. induction c as [|[u' r'] c IH]; simpl.
  - destruct (String.eqb_spec u v); [congruence|reflexivity].
  - destruct (String.eqb_spec u' u) as [-> | Hu]; simpl.
    + destruct (String.eqb_spec u v); [congruence|reflexivity].
    + destruct (String.eqb u' v); [reflexivity|exact IH].
Qed.

(** With caches of the current version only, a put goes to the first cache
    and [caches.match] finds it there. *)
Lemma cachesMatch_put_same u r cs :
  only_current cs -> cachesMatch u (cachesPut CACHE_NAME u r cs) = Some r.
Proof.
  intros H. destruct H as [|[n c] cs Hn _]; simpl.
  - rewrite String.eqb_refl. reflexivity.
  - simpl in Hn. subst n. rewrite String.eqb_refl. simpl.
    rewrite cacheMatch_put_same. reflexivity.
Qed.

Lemma cachesMatch_put_other u v r cs :
  only_current cs -> v <> u ->
  cachesMatch v (cachesPut CACHE_NAME u r cs) = cachesMatch v cs.
Proof.
  intros H Hne. destruct H as [|[n c] cs Hn _]; simpl.
  - destruct (String.eqb_spec u v); [congruence|reflexivity].
  - simpl in Hn. subst n. rewrite String.eqb_refl. simpl.
    rewrite cacheMatch_put_other by exact Hne. reflexivity.
Qed.

Lemma cachesPut_only_current u r cs :
  only_current cs -> only_current (cachesPut CACHE_NAME u r cs).
Proof.
  intros H. destruct H as [|[n c] cs Hn Hrest]; simpl.
  - constructor; [reflexivity|constructor].
  - simpl in Hn. subst n. rewrite String.eqb_refl.
    constructor; [reflexivity|exact Hrest].
Qed.

Lemma activate_only_current cs : only_current (fst (activate cs)).
Proof.
  unfold only_current, activate. simpl. apply Forall_forall.
  intros x Hx. apply filter_In in Hx. destruct Hx as [_ Hx].
  apply String.eqb_eq, Hx.
Qed.

(** X14. Activation leaves no cache of another version: every cache that
    remains is the current one, its content is untouched, the names logged
    are exactly those of the caches deleted, and [caches.match] afterwards
    answers from the current cache alone. *)
Theorem activate_keeps_the_current_cache_only : forall cs,
  distinct_names cs ->
  let cs' := fst (activate cs) in
  only_current cs' /\
  cacheNamed CACHE_NAME cs' = cacheNamed CACHE_NAME cs /\
  (forall n, In n (snd (activate cs)) <->
             In n (map fst cs) /\ n <> CACHE_NAME) /\
  (List.length cs' + List.length (snd (activate cs)) = List.length cs)%nat /\
  (forall u, cachesMatch u cs' =
             match cacheNamed CACHE_NAME cs with
             | Some c => cacheMatch u c
             | None => None
             end).
Proof.
  intros cs Hd cs'. subst cs'.
  split; [apply activate_only_current|].
  unfold activate. simpl.
  split; [|split; [|split]].
  - induction cs as [|[n c] cs IH]; simpl; [reflexivity|].
    inversion Hd; subst.
    destruct (String.eqb n CACHE_NAME) eqn:E; simpl; rewrite ?E; auto.
  - intros n. rewrite in_map_iff. split.
    + intros (x & <- & Hx). apply filter_In in Hx. destruct Hx as [Hx Hn].
      split; [apply in_map, Hx|].
      apply negb_true_iff, String.eqb_neq in Hn. exact Hn.
    + intros [Hin Hn]. apply in_map_iff in Hin. destruct Hin as (x & <- & Hx).
      exists x. split; [reflexivity|]. apply filter_In. split; [exact Hx|].
      apply negb_true_iff, String.eqb_neq. exact Hn.
  - rewrite length_map. clear Hd.
    induction cs as [|[n c] cs IH]; simpl; [reflexivity|].
    destruct (String.eqb n CACHE_NAME); simpl; lia.
  - intros u. induction cs as [|[n c] cs IH]; simpl; [reflexivity|].
    inversion Hd as [|? ? Hnotin Hd']; subst.
    destruct (String.eqb_spec n CACHE_NAME) as [-> | Hn]; simpl.
    + assert (Hrest : filter (fun x => String.eqb (fst x) CACHE_NAME) cs = []).
      { clear -Hnotin. induction cs as [|[n' c'] cs IH]; simpl; [reflexivity|].
        destruct (String.eqb_spec n' CACHE_NAME) as [-> | _].
        - exfalso. apply Hnotin. left. reflexivity.
        - apply IH. intros H. apply Hnotin. right. exact H. }
      rewrite Hrest. simpl. destruct (cacheMatch u c); reflexivity.
    + apply IH, Hd'.
Qed.

Lemma activate_keeps_the_current_cache_only_witness :
  let cs := [("naswar-dealer-v16", [("./", mkResponse true "old")]);
             (CACHE_NAME, [("./", mkResponse true "new")])] in
  cachesMatch "./" cs = Some (mkResponse true "old") /\
  cachesMatch "./" (fst (activate cs)) = Some (mkResponse true "new").
Proof.
  intro cs. split; [reflexivity|].
  destruct (activate_keeps_the_current_cache_only cs) as (_ & _ & _ & _ & H).
  - repeat constructor; simpl; intuition discriminate.
  - rewrite H. reflexivity.
Defined.

(** X15. A navigation is answered network first.  While the network
    answers, the response is the network's (whatever is cached) and it is
    stored; with caches of the current version only, the same navigation made
    offline afterwards gets that stored response back.  Offline and with
    nothing cached for the URL there is no response. *)
Theorem navigation_is_network_first : forall net req cs,
  navigate req = true ->
  (forall r, net (url req) = Some r ->
     fst (onFetch net req cs) = Some r /\
     (only_current cs ->
      fst (onFetch offline req (snd (onFetch net req cs))) = Some r)) /\
  (net (url req) = None ->
     fst (onFetch net req cs) = cachesMatch (url req) cs /\
     snd (onFetch net req cs) = cs).
Proof.
  intros net req cs Hnav. unfold onFetch. rewrite Hnav. split.
  - intros r Hr. rewrite Hr. simpl. split; [reflexivity|].
    intros Hc. apply cachesMatch_put_same, Hc.
  - intros Hr. rewrite Hr. split; reflexivity.
Qed.

Lemma navigation_is_network_first_witness :
  let net := fun u => if String.eqb u "./index.html"
                      then Some (mkResponse true "page v17") else None in
  let req := mkRequest "./index.html" true in
  fst (onFetch offline req (snd (onFetch net req []))) =
  Some (mkResponse true "page v17").
Proof.
  intros net req.
  apply (proj1 (navigation_is_network_first net req [] eq_refl)
           (mkResponse true "page v17") eq_refl).
  constructor.
Defined.



Lemma onFetch_offline req cs :
  fst (onFetch offline req cs) = cachesMatch (url req) cs /\
  snd (onFetch offline req cs) = cs.
Proof.
  unfold onFetch, offline. destruct (navigate req); simpl; [auto|].
  destruct (cachesMatch (url req) cs); auto.
Qed.

Lemma fetchAll_Some net urls : forall rs,
  fetchAll net urls = Some rs ->
  map fst rs = urls /\
  Forall (fun x => net (fst x) = Some (snd x) /\ ok (snd x) = true) rs.
Proof.
  induction urls as [|u urls IH]; simpl; intros rs H.
  - inversion H. split; [reflexivity|constructor].
  - destruct (net u) as [r|] eqn:En; [|discriminate].
    destruct (ok r) eqn:Eo; [|discriminate].
    destruct (fetchAll net urls) as [rs'|]; [|discriminate].
    inversion H; subst. destruct (IH rs' eq_refl) as [H1 H2].
    simpl. split; [rewrite H1; reflexivity|].
    constructor; [split; assumption|exact H2].
Qed.

Lemma fetchAll_all_ok net urls :
  (forall u, In u urls -> exists r, net u = Some r /\ ok r = true) ->
  exists rs, fetchAll net urls = Some rs.
Proof.
  induction urls as [|u urls IH]; simpl; intros H; [eauto|].
  destruct (H u (or_introl eq_refl)) as (r & -> & ->).
  destruct IH as [rs ->]; [intros v Hv; apply H; right; exact Hv|]. eauto.
Qed.

Lemma fetchAll_one_fails net urls u :
  In u urls -> (forall r, net u = Some r -> ok r = false) ->
  fetchAll net urls = None.
Proof.
  intros Hin Hbad. induction urls as [|v urls IH]; simpl; [contradiction|].
  destruct (net v) as [r|] eqn:En; [|reflexivity].
  destruct (ok r) eqn:Eo; [|reflexivity].
  destruct Hin as [-> | Hin].
  - rewrite (Hbad r En) in Eo. discriminate.
  - rewrite (IH Hin). reflexivity.
Qed.

Lemma cachesOpen_only_current cs :
  only_current cs ->
  only_current (cachesOpen CACHE_NAME cs) /\
  forall u, cachesMatch u (cachesOpen CACHE_NAME cs) = cachesMatch u cs.
Proof.
  intros H. destruct H as [|[n c] cs Hn Hrest]; simpl.
  - split; [constructor; [reflexivity|constructor]|reflexivity].
  - simpl in Hn. subst n. rewrite String.eqb_refl.
    split; [constructor; [reflexivity|exact Hrest]|reflexivity].
Qed.

Lemma putAll_other u rs : forall cs,
  only_current cs -> ~ In u (map fst rs) ->
  cachesMatch u (fold_left (fun acc x => cachesPut CACHE_NAME (fst x) (snd x) acc)
                           rs cs) = cachesMatch u cs.
Proof.
  induction rs as [|[v r] rs IH]; simpl; intros cs Hc Hn; [reflexivity|].
  rewrite IH; [|apply cachesPut_only_current, Hc|tauto].
  apply cachesMatch_put_other; [exact Hc|]. intros E. apply Hn. left.
  symmetry. exact E.
Qed.

Lemma putAll_same u r rs : forall cs,
  only_current cs -> NoDup (map fst rs) -> In (u, r) rs ->
  cachesMatch u (fold_left (fun acc x => cachesPut CACHE_NAME (fst x) (snd x) acc)
                           rs cs) = Some r.
Proof.
  induction rs as [|[v r'] rs IH]; simpl; intros cs Hc Hnd Hin; [contradiction|].
  inversion Hnd as [|? ? Hnotin Hnd']; subst.
  destruct Hin as [E | Hin].
  - inversion E; subst.
    rewrite putAll_other; [|apply cachesPut_only_current, Hc|exact Hnotin].
    apply cachesMatch_put_same, Hc.
  - apply IH; [apply cachesPut_only_current, Hc|exact Hnd'|exact Hin].
Qed.

Lemma putAll_only_current rs : forall cs,
  only_current cs ->
  only_current (fold_left (fun acc x => cachesPut CACHE_NAME (fst x) (snd x) acc)
                          rs cs).
Proof.
  induction rs as [|x rs IH]; simpl; intros cs Hc; [exact Hc|].
  apply IH, cachesPut_only_current, Hc.
Qed.

Lemma assets_distinct : NoDup ASSETS_TO_CACHE.
Proof.
  unfold ASSETS_TO_CACHE.
  repeat (constructor; [simpl; intuition discriminate|]). constructor.
Qed.

(** X17. When the network answers each of the five listed assets with an ok
    status, the installation succeeds and, with caches of the current version
    only, every one of them is then answered offline, as a navigation or as
    any other request, with the response fetched at installation. *)
Theorem install_makes_the_assets_available_offline : forall net cs,
  only_current cs ->
  (forall u, In u ASSETS_TO_CACHE -> exists r, net u = Some r /\ ok r = true) ->
  fst (install net cs) = true /\
  only_current (snd (install net cs)) /\
  forall u r nav, In u ASSETS_TO_CACHE -> net u = Some r ->
    fst (onFetch offline (mkRequest u nav) (snd (install net cs))) = Some r.
Proof.
  intros net cs Hc Hnet.
  destruct (fetchAll_all_ok net ASSETS_TO_CACHE Hnet) as [rs Hrs].
  destruct (fetchAll_Some net _ rs Hrs) as [Hurls Hall].
  destruct (cachesOpen_only_current cs Hc) as [Hco _].
  unfold install. rewrite Hrs. cbn [fst snd].
  split; [reflexivity|]. split; [apply putAll_only_current, Hco|].
  intros u r nav Hu Hr.
  rewrite (proj1 (onFetch_offline _ _)). simpl.
  apply putAll_same; [exact Hco|rewrite Hurls; apply assets_distinct|].
  rewrite <- Hurls in Hu. apply in_map_iff in Hu.
  destruct Hu as ([u' r'] & Hfst & Hin). simpl in Hfst. subst u'.
  rewrite Forall_forall in Hall. destruct (Hall _ Hin) as [Hn _].
  simpl in Hn. rewrite Hr in Hn. inversion Hn; subst. exact Hin.
Qed.

Lemma install_makes_the_assets_available_offline_witness :
  let net := fun u : string => Some (mkResponse true u) in
  fst (onFetch offline (mkRequest "./manifest.json" false)
               (snd (install net []))) =
  Some (mkResponse true "./manifest.json").
Proof.
  intro net.
  destruct (install_makes_the_assets_available_offline net []) as (_ & _ & H).
  - constructor.
  - intros u _. exists (mkResponse true u). split; reflexivity.
  - apply H; [|reflexivity]. simpl. tauto.
Defined.

(** X18. The installation is all or nothing: when the network fails for one
    of the listed assets, or answers it with a status that is not ok, the
    installation fails and no asset is stored, so that [caches.match] answers
    as before. *)
Theorem install_fails_as_a_whole : forall net cs u,
  only_current cs -> In u ASSETS_TO_CACHE ->
  (forall r, net u = Some r -> ok r = false) ->
  fst (install net cs) = false /\
  forall v, cachesMatch v (snd (install net cs)) = cachesMatch v cs.
Proof.
  intros net cs u Hc Hu Hbad. unfold install.
  rewrite (fetchAll_one_fails net _ u Hu Hbad). simpl.
  split; [reflexivity|]. apply cachesOpen_only_current, Hc.
Qed.

Lemma install_fails_as_a_whole_witness :
  let net := fun u : string =>
               if String.eqb u "./512.png" then Some (mkResponse false "404")
               else Some (mkResponse true u) in
  fst (install net []) = false /\
  cachesMatch "./index.html" (snd (install net [])) = None.
Proof.
  intro net.
  destruct (install_fails_as_a_whole net [] "./512.png") as [H1 H2].
  - constructor.
  - simpl. tauto.
  - intros r Hr. inversion Hr. reflexivity.
  - split; [exact H1|]. rewrite H2. reflexivity.
Defined.
